(** * obsidian-memos-ai-sync: the Memos service

    A shallow embedding of [src/services/memos-service.ts]: the paged
    fetch [fetchAllMemos] and the attachment download [downloadResource],
    together with the parts of the JavaScript platform they call.

    Conventions.
    - A JavaScript string is a Rocq [string] holding its generalised UTF-8
      bytes: a well-formed code point is its UTF-8 encoding, and a lone
      surrogate (which a JavaScript string may hold) is the three bytes
      [ED A0..BF xx].  [includes], [replace] and [split] are called with
      ASCII patterns only, for which bytewise matching agrees with matching
      on UTF-16 code units.
    - A JavaScript number that the service uses as a count or a status is an
      integer of [Z]; [syncLimit] is integer-valued (the settings store a
      whole number of memos).  A number that may be [NaN] is an [option Z].
    - [undefined] of an optional field is [None].
    - The logger only writes to the console; its calls are left out. *)

From Stdlib Require Import String Ascii ZArith List Bool Lia.
From Stdlib Require Import DecimalString Permutation Sorted.
Import ListNotations.
Open Scope string_scope.
Open Scope Z_scope.

(** ** The JavaScript platform *)

Module JS.

(** [Number.prototype.toString()] of an integer-valued number. *)
Definition toString (n : Z) : string := NilZero.string_of_int (Z.to_int n).

(** [Math.min] on integer-valued numbers. *)
Definition Math_min (a b : Z) : Z := Z.min a b.

(** A string is truthy when it is not empty; [undefined] is falsy. *)
Definition truthy (s : option string) : bool :=
  match s with
  | Some (String _ _) => true
  | _ => false
  end.

Fixpoint startsWith (pat s : string) : bool :=
  match pat, s with
  | EmptyString, _ => true
  | String _ _, EmptyString => false
  | String a pat', String b s' => Ascii.eqb a b && startsWith pat' s'
  end.

(** [s.includes(pat)]. *)
Fixpoint includes (pat s : string) : bool :=
  match s with
  | EmptyString => startsWith pat EmptyString
  | String _ s' => startsWith pat s || includes pat s'
  end.

Fixpoint drop (n : nat) (s : string) : string :=
  match n, s with
  | O, _ => s
  | S _, EmptyString => EmptyString
  | S n', String _ s' => drop n' s'
  end.

(** [s.replace(pat, rep)] with a string pattern: the first occurrence only.
    ([rep] holds no [$], so it is inserted as it is.) *)
Fixpoint replace (pat rep s : string) : string :=
  if startsWith pat s then rep ++ drop (String.length pat) s
  else match s with
       | EmptyString => EmptyString
       | String c s' => String c (replace pat rep s')
       end.

(** [s.split(sep)] for a separator of one character: never an empty array. *)
Fixpoint split (sep : ascii) (s : string) : list string :=
  match s with
  | EmptyString => [EmptyString]
  | String c s' =>
      if Ascii.eqb c sep then EmptyString :: split sep s'
      else match split sep s' with
           | h :: t => String c h :: t
           | [] => [String c EmptyString]
           end
  end.

(** [a.pop()]: the last element, [undefined] on an empty array. *)
Fixpoint pop {A : Type} (l : list A) : option A :=
  match l with
  | [] => None
  | [x] => Some x
  | _ :: l' => pop l'
  end.

(** *** Percent-encoding *)

Definition hexDigit (n : N) : ascii :=
  if (n <? 10)%N then ascii_of_N (48 + n) else ascii_of_N (55 + n).

Definition percent (c : ascii) : string :=
  let n := N_of_ascii c in
  String "%" (String (hexDigit (n / 16)) (String (hexDigit (n mod 16)) EmptyString)).

Definition isAlnum (c : ascii) : bool :=
  let n := N_of_ascii c in
  ((48 <=? n) && (n <=? 57) || (65 <=? n) && (n <=? 90) || (97 <=? n) && (n <=? 122))%N.

Definition oneOf (set : string) (c : ascii) : bool :=
  existsb (Ascii.eqb c) (list_ascii_of_string set).

(** A lone surrogate: the byte [ED] followed by a byte of [A0..BF]. *)
Fixpoint hasLoneSurrogate (s : string) : bool :=
  match s with
  | EmptyString => false
  | String a s' =>
      match s' with
      | String b _ =>
          ((N_of_ascii a =? 237) && (160 <=? N_of_ascii b))%N || hasLoneSurrogate s'
      | EmptyString => false
      end
  end.

Fixpoint escapeWith (keep : ascii -> bool) (s : string) : string :=
  match s with
  | EmptyString => EmptyString
  | String c s' =>
      (if keep c then String c EmptyString else percent c) ++ escapeWith keep s'
  end.

(** [encodeURIComponent(s)]: every byte but the unreserved marks is escaped;
    [None] is the [URIError] thrown on a lone surrogate. *)
Definition encodeURIComponent (s : string) : option string :=
  if hasLoneSurrogate s then None
  else Some (escapeWith (fun c => isAlnum c || oneOf "-_.!~*'()" c) s).

(** A string without the byte [ED]: it holds no surrogate. *)
Definition plain (s : string) : bool :=
  forallb (fun c => negb (N_of_ascii c =? 237)%N) (list_ascii_of_string s).

(** Conversion to a [USVString]: a lone surrogate becomes U+FFFD. *)
Fixpoint toUSVString (s : string) : string :=
  match s with
  | EmptyString => EmptyString
  | String a s' =>
      match s' with
      | String b (String _ s3) =>
          if ((N_of_ascii a =? 237) && (160 <=? N_of_ascii b))%N
          then String (ascii_of_N 239) (String (ascii_of_N 191)
                 (String (ascii_of_N 189) (toUSVString s3)))
          else String a (toUSVString s')
      | _ => String a (toUSVString s')
      end
  end.

(** The [application/x-www-form-urlencoded] byte serializer. *)
Fixpoint formEncode (s : string) : string :=
  match s with
  | EmptyString => EmptyString
  | String c s' =>
      (if isAlnum c || oneOf "*-._" c then String c EmptyString
       else if Ascii.eqb c " " then "+"
       else percent c) ++ formEncode s'
  end.

(** *** URLSearchParams: an ordered list of name-value pairs *)

Definition URLSearchParams := list (string * string).

(** [new URLSearchParams(record)]. *)
Definition URLSearchParams_new (init : list (string * string)) : URLSearchParams :=
  map (fun kv => (toUSVString (fst kv), toUSVString (snd kv))) init.

Fixpoint removeAll (name : string) (p : URLSearchParams) : URLSearchParams :=
  match p with
  | [] => []
  | (k, v) :: p' =>
      if String.eqb k name then removeAll name p' else (k, v) :: removeAll name p'
  end.

Fixpoint setFirst (name value : string) (p : URLSearchParams) : URLSearchParams :=
  match p with
  | [] => [(name, value)]
  | (k, v) :: p' =>
      if String.eqb k name then (name, value) :: removeAll name p'
      else (k, v) :: setFirst name value p'
  end.

(** [params.set(name, value)]. *)
Definition URLSearchParams_set (name value : string) (p : URLSearchParams)
  : URLSearchParams :=
  setFirst (toUSVString name) (toUSVString value) p.

(** [params.get(name)]. *)
Fixpoint URLSearchParams_get (name : string) (p : URLSearchParams) : option string :=
  match p with
  | [] => None
  | (k, v) :: p' => if String.eqb k name then Some v else URLSearchParams_get name p'
  end.

(** [params.toString()]. *)
Fixpoint URLSearchParams_toString (p : URLSearchParams) : string :=
  match p with
  | [] => EmptyString
  | [(k, v)] => formEncode k ++ "=" ++ formEncode v
  | (k, v) :: p' =>
      formEncode k ++ "=" ++ formEncode v ++ "&" ++ URLSearchParams_toString p'
  end.

(** *** Arrays *)

Definition len {A : Type} (l : list A) : Z := Z.of_nat (List.length l).

(** A relative index of [slice]: negative counts from the end, and the
    result is clamped to the array. *)
Definition relIndex (n : Z) (i : Z) : nat :=
  if i <? 0 then Z.to_nat (Z.max (n + i) 0) else Z.to_nat (Z.min i n).

(** [a.slice(start, end)]. *)
Definition slice {A : Type} (s e : Z) (l : list A) : list A :=
  let k := relIndex (len l) s in
  let f := relIndex (len l) e in
  firstn (f - k)%nat (skipn k l).

(** [a.sort(cmp)]: the sort is stable.  A comparator result of [NaN]
    ([None]) counts as [0].  An element goes before the first one it does
    not have to follow. *)
Definition cmpValue (v : option Z) : Z :=
  match v with Some z => z | None => 0 end.

Fixpoint insert {A : Type} (cmp : A -> A -> option Z) (x : A) (l : list A) : list A :=
  match l with
  | [] => [x]
  | y :: l' =>
      if cmpValue (cmp x y) <=? 0 then x :: y :: l' else y :: insert cmp x l'
  end.

Definition sort {A : Type} (cmp : A -> A -> option Z) (l : list A) : list A :=
  fold_right (insert cmp) [] l.

(** *** Thrown values *)

Inductive ErrorClass := Error_ | TypeError_ | URIError_ | Other_.

Record Thrown := mkThrown { errClass : ErrorClass; message : string }.

Definition Error (msg : string) : Thrown := mkThrown Error_ msg.

Definition instanceofTypeError (e : Thrown) : bool :=
  match errClass e with TypeError_ => true | _ => false end.

End JS.

(** ** The HTTP transport and the effects of a call

    [requestUrl] of the host is an oracle: what it answers may depend on the
    request and on how many requests the call has issued before.  A call of
    the service threads the list of exchanges it has had with the transport;
    an exception keeps that list. *)

Module Effects.
Import JS.

(** Modelled from the spec: the type [MemoItem] of [models/settings], which
    is not among the sources: an opaque record that carries at least a
    [createTime]; the rest of the memo is [payload]. *)
Record MemoItem := mkMemo { createTime : string; payload : string }.

Definition ArrayBuffer := list Byte.byte.

Record RequestUrlParam := mkRequest {
  url : string;
  headers : list (string * string);
  method : option string
}.

(** [response.json] as [fetchAllMemos] inspects it: a falsy value, or an
    object whose [memos] is an array ([Some]) or not ([None]). *)
Inductive ResponseData :=
| Falsy
| Data (memos : option (list MemoItem)) (nextPageToken : option string).

Record RequestUrlResponse := mkResponse {
  status : Z;
  text : string;
  json : ResponseData;
  arrayBuffer : option ArrayBuffer
}.

Inductive Outcome :=
| Resolved (r : RequestUrlResponse)
| Rejected (e : Thrown).

Definition Exchange := (RequestUrlParam * Outcome)%type.

Definition Transport := nat -> RequestUrlParam -> Outcome.

Inductive Completion (A : Type) :=
| Normal (a : A)
| Throw (e : Thrown)
| Diverge.
Arguments Normal {A} a.
Arguments Throw {A} e.
Arguments Diverge {A}.

Definition M (A : Type) := list Exchange -> Completion A * list Exchange.

Definition ret {A} (a : A) : M A := fun tr => (Normal a, tr).

Definition throw {A} (e : Thrown) : M A := fun tr => (Throw e, tr).

Definition diverge {A} : M A := fun tr => (Diverge, tr).

Definition bind {A B} (c : M A) (k : A -> M B) : M B :=
  fun tr =>
    match c tr with
    | (Normal a, tr') => k a tr'
    | (Throw e, tr') => (Throw e, tr')
    | (Diverge, tr') => (Diverge, tr')
    end.

(** [try { c } catch (error) { handler error }]; running out of fuel is not
    an exception and is not caught. *)
Definition try_catch {A} (c : M A) (handler : Thrown -> M A) : M A :=
  fun tr =>
    match c tr with
    | (Throw e, tr') => handler e tr'
    | r => r
    end.

(** [await requestUrl(req)]. *)
Definition await_requestUrl (transport : Transport) (req : RequestUrlParam)
  : M RequestUrlResponse :=
  fun tr =>
    let o := transport (List.length tr) req in
    match o with
    | Resolved r => (Normal r, (tr ++ [(req, o)])%list)
    | Rejected e => (Throw e, (tr ++ [(req, o)])%list)
    end.

(** A value that may have thrown, lifted into a call. *)
Definition orThrow {A} (v : option A) (e : Thrown) : M A :=
  match v with Some a => ret a | None => throw e end.

End Effects.

Declare Scope js_scope.
Notation "x <- c ;; k" := (Effects.bind c (fun x => k))
  (at level 61, c at next level, right associativity) : js_scope.

(** ** The service *)

Module MemosService.
Import JS Effects.
Open Scope js_scope.

Record MemosService := mkService {
  apiUrl : string;
  accessToken : string;
  syncLimit : Z
}.

Definition newline : string := String (ascii_of_N 10) EmptyString.

Section Service.

(** [new Date(s).getTime()]; [None] is [NaN]. *)
Variable Date_getTime : string -> option Z.
Variable requestUrl : Transport.
Variable this : MemosService.

(** The comparator of the final sort:
    [new Date(b.createTime).getTime() - new Date(a.createTime).getTime()]. *)
Definition byCreateTimeDesc (a b : MemoItem) : option Z :=
  match Date_getTime (createTime b), Date_getTime (createTime a) with
  | Some tb, Some ta => Some (tb - ta)
  | _, _ => None
  end.

(** The query of one page: [state], [pageSize] and, after a page that
    handed out a cursor, [pageToken]. *)
Definition pageParams (pageSize : Z) (pageToken : option string) : URLSearchParams :=
  let params := URLSearchParams_new
                  [("state", "NORMAL"); ("pageSize", toString pageSize)] in
  match pageToken with
  | Some t => if truthy pageToken then URLSearchParams_set "pageToken" t params
              else params
  | None => params
  end.

(** The request of one page. *)
Definition pageRequest (pageSize : Z) (pageToken : option string) : RequestUrlParam :=
  let baseUrl := apiUrl this in
  let url := baseUrl ++ "/memos" in
  let params := pageParams pageSize pageToken in
  let finalUrl := url ++ "?" ++ URLSearchParams_toString params in
  mkRequest finalUrl
    [("Authorization", "Bearer " ++ accessToken this); ("Accept", "application/json")]
    None.

(** [allMemos.push(...memos.slice(0, neededCount))]. *)
Definition pushNeeded (allMemos memos : list MemoItem) : list MemoItem :=
  let remainingCount := syncLimit this - len allMemos in
  let neededCount := Math_min (len memos) remainingCount in
  (allMemos ++ slice 0 neededCount memos)%list.

(** The [do { ... } while (true)] loop; one unit of fuel per iteration.
    A [break] returns the accumulator. *)
Fixpoint fetchLoop (fuel : nat) (pageSize : Z)
    (allMemos : list MemoItem) (pageToken : option string) : M (list MemoItem) :=
  match fuel with
  | O => diverge
  | S fuel' =>
      response <- await_requestUrl requestUrl (pageRequest pageSize pageToken) ;;
      if negb (status response =? 200) then
        throw (Error ("HTTP " ++ toString (status response) ++ ": 请求失败"
                      ++ newline ++ "响应内容: " ++ text response))
      else
        match json response with
        | Falsy | Data None _ =>
            throw (Error "响应格式无效: 返回数据不包含 memos 数组")
        | Data (Some memos) nextPageToken =>
            let pageToken := nextPageToken in
            if len memos =? 0 then ret allMemos
            else
              let allMemos := pushNeeded allMemos memos in
              if (len allMemos >=? syncLimit this) || negb (truthy pageToken)
              then ret allMemos
              else fetchLoop fuel' pageSize allMemos pageToken
        end
  end.

(** [fetchAllMemos()]. *)
Definition fetchAllMemos (fuel : nat) : M (list MemoItem) :=
  try_catch
    (let allMemos := [] in
     let pageToken := None in
     let pageSize := Math_min 100 (syncLimit this) in
     if negb (includes "/api/v1" (apiUrl this)) then
       throw (Error "API URL 格式不正确，请确保包含 /api/v1")
     else
       allMemos <- fetchLoop fuel pageSize allMemos pageToken ;;
       ret (sort byCreateTimeDesc allMemos))
    (fun error =>
       if instanceofTypeError error && String.eqb (message error) "Failed to fetch"
       then throw (Error ("网络错误: 无法连接到 " ++ apiUrl this
                          ++ "。请检查 URL 是否正确且可访问。"))
       else throw error).

(** [resource.name.split('/').pop() || resource.name]. *)
Definition attachmentIdOf (name : string) : string :=
  match pop (split "/" name) with
  | Some (String c s) => String c s
  | _ => name
  end.

Record Resource := mkResource {
  name : string;
  filename : string;
  type : option string
}.

(** [downloadResource(resource)]; [None] is [null]. *)
Definition downloadResource (resource : Resource) : M (option ArrayBuffer) :=
  try_catch
    (let attachmentId := attachmentIdOf (name resource) in
     encoded <- orThrow (encodeURIComponent (filename resource))
                        (mkThrown URIError_ "URI malformed") ;;
     let resourceUrl := replace "/api/v1" "" (apiUrl this)
                        ++ "/file/attachments/" ++ attachmentId ++ "/" ++ encoded in
     response <- await_requestUrl requestUrl
                   (mkRequest resourceUrl
                      [("Authorization", "Bearer " ++ accessToken this);
                       ("Accept", "*/*")]
                      (Some "GET")) ;;
     if negb (status response =? 200) then ret None
     else
       match arrayBuffer response with
       | Some buf => ret (Some buf)
       | None => ret None
       end)
    (fun error => ret None).

End Service.

End MemosService.

(** ** Reading a run off its exchanges

    What the loop of [fetchAllMemos] does with an exchange depends on the
    accumulator only; these functions replay a list of exchanges. *)

Module Trace.
Import JS Effects MemosService.

Section Replay.

Variable this : MemosService.

(** The page an exchange delivered: a 200 response whose [memos] is an
    array. *)
Definition pageOf (e : Exchange) : option (list MemoItem * option string) :=
  match snd e with
  | Resolved r =>
      if status r =? 200 then
        match json r with
        | Data (Some memos) next => Some (memos, next)
        | _ => None
        end
      else None
  | Rejected _ => None
  end.

(** The accumulator after an exchange. *)
Definition absorb (acc : list MemoItem) (e : Exchange) : list MemoItem :=
  match pageOf e with
  | Some (memos, _) => pushNeeded this acc memos
  | None => acc
  end.

Definition replay (acc : list MemoItem) (es : list Exchange) : list MemoItem :=
  fold_left absorb es acc.

(** The exchange sends the loop into another iteration. *)
Definition continues (acc : list MemoItem) (e : Exchange) : bool :=
  match pageOf e with
  | Some (memos, next) =>
      negb (len memos =? 0)
      && negb ((len (pushNeeded this acc memos) >=? syncLimit this)
               || negb (truthy next))
  | None => false
  end.

Fixpoint allContinue (acc : list MemoItem) (es : list Exchange) : bool :=
  match es with
  | [] => true
  | e :: es' => continues acc e && allContinue (absorb acc e) es'
  end.

(** How the loop ends on an exchange that does not continue it. *)
Definition finish (acc : list MemoItem) (e : Exchange) : Completion (list MemoItem) :=
  match snd e with
  | Rejected err => Throw err
  | Resolved r =>
      if status r =? 200 then
        match json r with
        | Data (Some _) _ => Normal (absorb acc e)
        | _ => Throw (Error "响应格式无效: 返回数据不包含 memos 数组")
        end
      else Throw (Error ("HTTP " ++ toString (status r) ++ ": 请求失败"
                         ++ newline ++ "响应内容: " ++ text r))
  end.

(** A response is a page in good order. *)
Definition wellFormed (o : Outcome) : Prop :=
  exists r memos next, o = Resolved r /\ status r = 200 /\ json r = Data (Some memos) next.

End Replay.

Section Order.

Variable Date_getTime : string -> option Z.

Definition timeOf (m : MemoItem) : option Z := Date_getTime (createTime m).

Definition parseable (m : MemoItem) : Prop := timeOf m <> None.

(** [a] is at least as recent as [b]; both times are parseable. *)
Definition notBefore (a b : MemoItem) : Prop :=
  exists ta tb, timeOf a = Some ta /\ timeOf b = Some tb /\ tb <= ta.

Definition createdAt (t : Z) (m : MemoItem) : bool :=
  match timeOf m with
  | Some t' => t' =? t
  | None => false
  end.

End Order.

Section Conclude.

Variable Date_getTime : string -> option Z.
Variable this : MemosService.

(** What [fetchAllMemos] makes of the way its loop ended: the sort after
    the loop, or the [catch] clause. *)
Definition conclude (c : Completion (list MemoItem)) : Completion (list MemoItem) :=
  match c with
  | Normal allMemos => Normal (sort (byCreateTimeDesc Date_getTime) allMemos)
  | Throw error =>
      if instanceofTypeError error && String.eqb (message error) "Failed to fetch"
      then Throw (Error ("网络错误: 无法连接到 " ++ apiUrl this
                         ++ "。请检查 URL 是否正确且可访问。"))
      else Throw error
  | Diverge => Diverge
  end.

End Conclude.

End Trace.

(** ** Sample servers and inputs, for concrete runs *)

Module Samples.
Import JS Effects MemosService.

Definition digitsOf (s : string) : option Z :=
  if forallb (fun c => (48 <=? N_of_ascii c) && (N_of_ascii c <=? 57))%N
       (list_ascii_of_string s) && negb (String.eqb s "")
  then Some (fold_left (fun acc c => 10 * acc + Z.of_N (N_of_ascii c - 48))
               (list_ascii_of_string s) 0)
  else None.

Definition daysFromCivil (y m d : Z) : Z :=
  let y' := if m <=? 2 then y - 1 else y in
  let era := y' / 400 in
  let yoe := y' - era * 400 in
  let doy := (153 * (if m >? 2 then m - 3 else m + 9) + 2) / 5 + d - 1 in
  let doe := yoe * 365 + yoe / 4 - yoe / 100 + doy in
  era * 146097 + doe - 719468.

(** [new Date(s).getTime()] on the UTC timestamps the Memos server sends,
    [YYYY-MM-DDTHH:MM:SSZ]; any other text is taken as unparseable. *)
Definition isoTime (s : string) : option Z :=
  let part := fun i n => digitsOf (substring i n s) in
  let sep := fun i c => String.eqb (substring i 1 s) c in
  match part 0%nat 4%nat, part 5%nat 2%nat, part 8%nat 2%nat,
        part 11%nat 2%nat, part 14%nat 2%nat, part 17%nat 2%nat with
  | Some y, Some m, Some d, Some h, Some mi, Some sec =>
      if (String.length s =? 20)%nat
         && sep 4%nat "-" && sep 7%nat "-" && sep 10%nat "T"
         && sep 13%nat ":" && sep 16%nat ":" && sep 19%nat "Z"
         && (1 <=? m) && (m <=? 12) && (1 <=? d) && (d <=? 31)
         && (h <? 24) && (mi <? 60) && (sec <? 60)
      then Some ((((daysFromCivil y m d * 24 + h) * 60 + mi) * 60 + sec) * 1000)
      else None
  | _, _, _, _, _, _ => None
  end.

Definition page (memos : list MemoItem) (next : option string) : RequestUrlResponse :=
  mkResponse 200 "" (Data (Some memos) next) None.

Definition unreachable : Outcome :=
  Rejected (mkThrown TypeError_ "Failed to fetch").

(** A server that answers the i-th request with the i-th response of a
    list, and cannot be reached after that. *)
Definition serve (answers : list RequestUrlResponse) : Transport :=
  fun i _ =>
    match nth_error answers i with
    | Some r => Resolved r
    | None => unreachable
    end.

(** A server that never stops handing out a cursor. *)
Definition endless (memo : MemoItem) : Transport :=
  fun _ _ => Resolved (page [memo] (Some "more")).

Definition m1 := mkMemo "2024-01-15T10:30:00Z" "one".
Definition m2 := mkMemo "2024-03-01T00:00:00Z" "two".
Definition m3 := mkMemo "2024-01-15T10:30:00Z" "three".
Definition m4 := mkMemo "2023-12-31T23:59:59Z" "four".

Definition svc (limit : Z) : MemosService :=
  mkService "https://memos.example/api/v1" "token" limit.

(** The request for a page under a limit, after a cursor or at the start. *)
Definition ask (limit : Z) (cursor : option string) : RequestUrlParam :=
  pageRequest (svc limit) (Z.min 100 limit) cursor.

(** Two pages of two memos, each with a cursor. *)
Definition twoPages : Transport :=
  serve [page [m1; m2] (Some "t1"); page [m3; m4] (Some "t2")].

Definition firstOfTwo : Exchange :=
  (ask 3 None, Resolved (page [m1; m2] (Some "t1"))).

Definition secondOfTwo : Exchange :=
  (ask 3 (Some "t1"), Resolved (page [m3; m4] (Some "t2"))).

(** A page, then an empty page that still hands out a cursor, then more. *)
Definition emptySecond : Transport :=
  serve [page [m1; m2] (Some "t1"); page [] (Some "t2"); page [m3] None].

Definition emptyPage : Exchange :=
  (ask 3 (Some "t1"), Resolved (page [] (Some "t2"))).

(** A page without a cursor, though the server has more. *)
Definition noCursor : Transport :=
  serve [page [m1; m2] None; page [m3] None].

Definition lonePage : Exchange :=
  (ask 3 None, Resolved (page [m1; m2] None)).

(** A page, then a refusal. *)
Definition notFound : RequestUrlResponse := mkResponse 404 "nope" Falsy None.

Definition refusedSecond : Transport :=
  serve [page [m1; m2] (Some "t1"); notFound].

Definition photo : Resource := mkResource "attachments/42" "photo 1.png" None.

End Samples.

(** ** The memos a run fetched *)

Module Pages.
Import JS Effects MemosService Trace.

(** The memos of the pages the exchanges delivered, in the order of
    arrival, before any cut. *)
Definition fetchedMemos (es : list Exchange) : list MemoItem :=
  flat_map (fun e => match pageOf e with
                     | Some (memos, _) => memos
                     | None => []
                     end) es.

End Pages.

(** ** The plugin and its settings

    [src/models/plugin.ts].  A JavaScript object is the list of its own
    properties in the order they were added (the names of the settings are
    not array indices, which an object would put first); a list whose names
    are distinct is an object.  The host keeps the data of the plugin:
    [loadData()] gives what the last [saveData(x)] was given, and [null]
    ([None]) when nothing was saved. *)

Module Plugin.

(** The value of a setting; an array or a nested object is opaque to the
    plugin, which copies it as it is, and is held as its JSON text. *)
Inductive JsValue :=
| VString (s : string)
| VNumber (n : Z)
| VBoolean (b : bool)
| VNull
| VNested (json : string).

Definition JsObject := list (string * JsValue).

(** [o[k]], [None] when [o] has no property [k]. *)
Fixpoint getProp (k : string) (o : JsObject) : option JsValue :=
  match o with
  | [] => None
  | (k', v) :: o' => if String.eqb k' k then Some v else getProp k o'
  end.

(** [o[k] = v]: the property keeps its place, a new one goes last. *)
Fixpoint setProp (k : string) (v : JsValue) (o : JsObject) : JsObject :=
  match o with
  | [] => [(k, v)]
  | (k', v') :: o' =>
      if String.eqb k' k then (k', v) :: o' else (k', v') :: setProp k v o'
  end.

(** One source of [Object.assign]: its properties are set on the target
    one after the other; a [null] source is skipped. *)
Definition assignFrom (target : JsObject) (source : option JsObject) : JsObject :=
  match source with
  | Some props => fold_left (fun t kv => setProp (fst kv) (snd kv) t) props target
  | None => target
  end.

(** [Object.assign(target, ...sources)]. *)
Definition Object_assign (target : JsObject) (sources : list (option JsObject))
  : JsObject :=
  fold_left assignFrom sources target.

(** The names of an object are distinct. *)
Definition distinctNames (o : JsObject) : Prop := NoDup (map fst o).

(** The plugin: its [settings] ([None] before the first load) and the data
    the host keeps for it. *)
Record MemosSyncPlugin := mkPlugin {
  settings : option JsObject;
  data : option JsObject
}.

Section Settings.

(** [DEFAULT_SETTINGS] of [models/settings], which is not among the
    sources. *)
Variable DEFAULT_SETTINGS : JsObject.

(** [loadSettings()]. *)
Definition loadSettings (this : MemosSyncPlugin) : MemosSyncPlugin :=
  let loaded := data this in
  mkPlugin (Some (Object_assign [] [Some DEFAULT_SETTINGS; loaded])) (data this).

(** [saveSettings()]. *)
Definition saveSettings (this : MemosSyncPlugin) : MemosSyncPlugin :=
  mkPlugin (settings this) (settings this).

End Settings.

End Plugin.

(** ** More sample servers and inputs *)

Module MoreSamples.
Import JS Effects MemosService Trace Samples Plugin.

(** A 200 response whose body has no [memos] array. *)
Definition noMemosArray : RequestUrlResponse :=
  mkResponse 200 "{}" (Data None None) None.

Definition malformedSecond : Transport :=
  serve [page [m1; m2] (Some "t1"); noMemosArray].

(** A server that is reachable for one page only. *)
Definition goneAfterFirst : Transport := serve [page [m1; m2] (Some "t1")].

(** A transport that gives up on every request. *)
Definition timedOut : Thrown := mkThrown Error_ "net::ERR_CONNECTION_TIMED_OUT".

Definition alwaysTimesOut : Transport := fun _ _ => Rejected timedOut.

(** One page without a cursor, shorter than the limit. *)
Definition shortPage : Exchange :=
  (ask 5 None, Resolved (page [m1; m2] None)).

Definition defaults : JsObject :=
  [("apiUrl", VString ""); ("accessToken", VString ""); ("syncLimit", VNumber 1000)].

Definition saved : JsObject :=
  [("syncLimit", VNumber 50); ("apiUrl", VString "https://memos.example/api/v1")].

End MoreSamples.

(** ** The fetch under a limit that is any finite number

    The constructor takes [syncLimit: number].  Here the limit is a
    rational, which covers the whole numbers of the settings and the
    fractions between them; the rest of the service is as above.  The
    numbers that matter are exact in this arithmetic as they are in
    doubles: counts, and limits with a short binary expansion. *)

From Stdlib Require QArith.

Module AnyLimit.
Import JS Effects MemosService.
Import QArith_base.
Local Open Scope Z_scope.

(** [Math.min] on numbers. *)
Definition Math_minQ (a b : Q) : Q := if Qle_bool a b then a else b.

(** The integer a number stands for as an index of [slice]: it is cut
    toward zero. *)
Definition toInteger (q : Q) : Z := Z.quot (Qnum q) (Zpos (Qden q)).

Fixpoint fractionDigits (fuel : nat) (r d : Z) : string :=
  match fuel with
  | O => EmptyString
  | S fuel' =>
      if r =? 0 then EmptyString
      else toString (10 * r / d) ++ fractionDigits fuel' (10 * r mod d) d
  end.

(** [Number.prototype.toString()] of a whole number, and of a number with
    a short decimal expansion. *)
Definition Number_toString (q : Q) : string :=
  let n := Qnum q in
  let d := Zpos (Qden q) in
  if d =? 1 then toString n
  else (if n <? 0 then "-" else "")
       ++ toString (Z.abs n / d) ++ "." ++ fractionDigits 20 (Z.abs n mod d) d.

Section Service.

Variable Date_getTime : string -> option Z.
Variable requestUrl : Transport.
Variable apiUrl : string.
Variable accessToken : string.
Variable syncLimit : Q.

Definition pageParamsQ (pageSize : Q) (pageToken : option string) : URLSearchParams :=
  let params := URLSearchParams_new
                  [("state", "NORMAL"); ("pageSize", Number_toString pageSize)] in
  match pageToken with
  | Some t => if truthy pageToken then URLSearchParams_set "pageToken" t params
              else params
  | None => params
  end.

Definition pageRequestQ (pageSize : Q) (pageToken : option string) : RequestUrlParam :=
  let baseUrl := apiUrl in
  let url := baseUrl ++ "/memos" in
  let params := pageParamsQ pageSize pageToken in
  let finalUrl := url ++ "?" ++ URLSearchParams_toString params in
  mkRequest finalUrl
    [("Authorization", "Bearer " ++ accessToken); ("Accept", "application/json")]
    None.

(** [allMemos.push(...memos.slice(0, neededCount))]. *)
Definition pushNeededQ (allMemos memos : list MemoItem) : list MemoItem :=
  let remainingCount := Qminus syncLimit (inject_Z (len allMemos)) in
  let neededCount := Math_minQ (inject_Z (len memos)) remainingCount in
  (allMemos ++ slice 0 (toInteger neededCount) memos)%list.

(** The loop of [fetchAllMemos], one unit of fuel per iteration. *)
Fixpoint fetchLoopQ (fuel : nat) (pageSize : Q)
    (allMemos : list MemoItem) (pageToken : option string) : M (list MemoItem) :=
  match fuel with
  | O => diverge
  | S fuel' =>
      response <- await_requestUrl requestUrl (pageRequestQ pageSize pageToken) ;;
      if negb (status response =? 200) then
        throw (Error ("HTTP " ++ toString (status response) ++ ": 请求失败"
                      ++ newline ++ "响应内容: " ++ text response))
      else
        match json response with
        | Falsy | Data None _ =>
            throw (Error "响应格式无效: 返回数据不包含 memos 数组")
        | Data (Some memos) nextPageToken =>
            let pageToken := nextPageToken in
            if len memos =? 0 then ret allMemos
            else
              let allMemos := pushNeededQ allMemos memos in
              if Qle_bool syncLimit (inject_Z (len allMemos)) || negb (truthy pageToken)
              then ret allMemos
              else fetchLoopQ fuel' pageSize allMemos pageToken
        end
  end.

(** [fetchAllMemos()]. *)
Definition fetchAllMemosQ (fuel : nat) : M (list MemoItem) :=
  try_catch
    (let allMemos := [] in
     let pageToken := None in
     let pageSize := Math_minQ (inject_Z 100) syncLimit in
     if negb (includes "/api/v1" apiUrl) then
       throw (Error "API URL 格式不正确，请确保包含 /api/v1")
     else
       allMemos <- fetchLoopQ fuel pageSize allMemos pageToken ;;
       ret (sort (byCreateTimeDesc Date_getTime) allMemos))
    (fun error =>
       if instanceofTypeError error && String.eqb (message error) "Failed to fetch"
       then throw (Error ("网络错误: 无法连接到 " ++ apiUrl
                          ++ "。请检查 URL 是否正确且可访问。"))
       else throw error).

End Service.

End AnyLimit.

(** ** Facts about the platform *)

Module PlatformFacts.
Import JS.

Lemma len_nonneg {A} (l : list A) : 0 <= len l.
Proof. unfold len. lia. Qed.

Lemma len_app {A} (l k : list A) : len (l ++ k)%list = len l + len k.
Proof. unfold len. rewrite length_app. lia. Qed.

Lemma len_zero_nil {A} (l : list A) : len l = 0 -> l = [].
Proof. destruct l; [reflexivity | unfold len; simpl; lia]. Qed.

Lemma firstn_min_length {A} (n : nat) (l : list A) :
  firstn (Nat.min n (length l)) l = firstn n l.
Proof.
  destruct (Nat.le_ge_cases n (length l)) as [H | H].
  - now rewrite Nat.min_l.
  - rewrite Nat.min_r by assumption.
    now rewrite firstn_all, firstn_all2.
Qed.

(** From the start of the array, a non-negative end keeps a prefix. *)
Lemma slice_prefix {A} (e : Z) (l : list A) :
  0 <= e -> slice 0 e l = firstn (Z.to_nat e) l.
Proof.
  intros He. unfold slice, relIndex.
  pose proof (len_nonneg l) as Hl.
  replace (0 <? 0) with false by reflexivity.
  destruct (e <? 0) eqn:E; [apply Z.ltb_lt in E; lia |].
  rewrite (Z.min_l 0 (len l)) by lia. simpl.
  rewrite Nat.sub_0_r.
  unfold len. rewrite Z2Nat.inj_min, Nat2Z.id.
  apply firstn_min_length.
Qed.

Lemma slice_nil {A} (s e : Z) : slice s e (@nil A) = [].
Proof. unfold slice. rewrite skipn_nil. apply firstn_nil. Qed.

Lemma pop_last {A} (l : list A) (x : A) : pop (l ++ [x])%list = Some x.
Proof.
  induction l as [| y l IH]; [reflexivity |].
  simpl. destruct (l ++ [x])%list eqn:E; [now destruct l | exact IH].
Qed.

Lemma toUSVString_plain s : plain s = true -> toUSVString s = s.
Proof.
  unfold plain. induction s as [| a s IH]; [reflexivity |].
  cbn [list_ascii_of_string forallb]. intros H.
  apply andb_prop in H as [Ha Hs]. apply negb_true_iff in Ha.
  specialize (IH Hs). cbn [toUSVString].
  destruct s as [| b [| c s3]]; rewrite ?Ha; cbn [andb]; now rewrite IH.
Qed.

Lemma uint_plain d : plain (NilEmpty.string_of_uint d) = true.
Proof. unfold plain. induction d; cbn; auto. Qed.

Lemma toString_plain n : plain (toString n) = true.
Proof.
  unfold toString, NilZero.string_of_int, NilZero.string_of_uint.
  destruct (Z.to_int n) as [d | d]; destruct d;
    try reflexivity; try apply uint_plain;
    (change (plain (String "-" ?s)) with (plain s) || idtac);
    try reflexivity; cbn [plain list_ascii_of_string forallb]; cbn;
    apply (uint_plain _).
Qed.

End PlatformFacts.

(** ** Facts about the loop *)

Module LoopFacts.
Import JS Effects MemosService Trace PlatformFacts.

Section Loop.

Variable requestUrl : Transport.
Variable this : MemosService.

Lemma pushNeeded_nil acc : pushNeeded this acc [] = acc.
Proof. unfold pushNeeded. rewrite slice_nil. apply app_nil_r. Qed.

(** Under the limit, a page is cut to the remaining budget. *)
Lemma pushNeeded_truncates acc memos :
  len acc <= syncLimit this ->
  pushNeeded this acc memos =
  (acc ++ firstn (Z.to_nat (syncLimit this - len acc)) memos)%list.
Proof.
  intros H. unfold pushNeeded, Math_min.
  pose proof (len_nonneg memos) as Hm.
  rewrite slice_prefix by lia.
  f_equal. rewrite Z2Nat.inj_min. unfold len at 1. rewrite Nat2Z.id.
  rewrite Nat.min_comm. apply firstn_min_length.
Qed.

Lemma pushNeeded_grows acc memos : len acc <= len (pushNeeded this acc memos).
Proof.
  unfold pushNeeded. rewrite len_app.
  pose proof (len_nonneg (slice 0 (Math_min (len memos) (syncLimit this - len acc)) memos)).
  lia.
Qed.

Lemma pushNeeded_bounded acc memos :
  len acc <= syncLimit this -> len (pushNeeded this acc memos) <= syncLimit this.
Proof.
  intros H. rewrite pushNeeded_truncates by assumption.
  rewrite len_app. unfold len at 2. rewrite length_firstn.
  pose proof (len_nonneg acc). lia.
Qed.

(** Under the limit, a page that is not empty adds an item. *)
Lemma pushNeeded_adds acc memos :
  len acc < syncLimit this -> memos <> [] ->
  len acc + 1 <= len (pushNeeded this acc memos).
Proof.
  intros H Hne. rewrite pushNeeded_truncates by lia.
  rewrite len_app. unfold len at 3. rewrite length_firstn.
  destruct memos as [| m memos]; [contradiction |]. simpl length. lia.
Qed.

(** The query of a page request carries the page size. *)
Lemma pageParams_pageSize pageSize pageToken :
  URLSearchParams_get "pageSize" (pageParams pageSize pageToken)
  = Some (toString pageSize).
Proof.
  unfold pageParams, URLSearchParams_new, URLSearchParams_set.
  cbn [map fst snd]. rewrite (toUSVString_plain (toString pageSize))
    by apply toString_plain.
  destruct pageToken as [t |]; [destruct (truthy (Some t)) |]; reflexivity.
Qed.

Lemma replay_app acc es es' :
  replay this acc (es ++ es')%list = replay this (replay this acc es) es'.
Proof. unfold replay. apply fold_left_app. Qed.

Lemma replay_snoc acc es e :
  replay this acc (es ++ [e])%list = absorb this (replay this acc es) e.
Proof. now rewrite replay_app. Qed.

Lemma absorb_grows acc e : len acc <= len (absorb this acc e).
Proof.
  unfold absorb. destruct (pageOf e) as [[memos next] |]; [| lia].
  apply pushNeeded_grows.
Qed.

Lemma absorb_bounded acc e :
  len acc <= syncLimit this -> len (absorb this acc e) <= syncLimit this.
Proof.
  intros H. unfold absorb. destruct (pageOf e) as [[memos next] |]; [| exact H].
  now apply pushNeeded_bounded.
Qed.

Lemma replay_bounded es : forall acc,
  len acc <= syncLimit this -> len (replay this acc es) <= syncLimit this.
Proof.
  induction es as [| e es IH]; intros acc H; [exact H |].
  simpl. apply IH. now apply absorb_bounded.
Qed.

(** An exchange that continues the loop delivered a page that is not
    empty, with a cursor, and left the accumulator under the limit. *)
Lemma continues_inv acc e :
  continues this acc e = true ->
  exists memos next,
    pageOf e = Some (memos, next) /\ memos <> [] /\ truthy next = true /\
    len (absorb this acc e) < syncLimit this.
Proof.
  unfold continues, absorb. destruct (pageOf e) as [[memos next] |]; [| discriminate].
  intros H. apply andb_prop in H as [H1 H2].
  apply negb_true_iff in H1, H2. apply orb_false_elim in H2 as [H2 H3].
  apply negb_false_iff in H3.
  exists memos, next. repeat split; try assumption.
  - intros ->. discriminate.
  - destruct (Z.geb_spec (len (pushNeeded this acc memos)) (syncLimit this)); [discriminate | lia].
Qed.

Lemma continues_adds acc e :
  continues this acc e = true ->
  len acc + 1 <= len (absorb this acc e) < syncLimit this.
Proof.
  intros H. destruct (continues_inv _ _ H) as (memos & next & Hp & Hne & _ & Hlt).
  split; [| exact Hlt].
  pose proof (absorb_grows acc e) as Hg.
  unfold absorb in *. rewrite Hp in *. apply pushNeeded_adds; [lia | exact Hne].
Qed.

(** Every exchange that continues the loop adds an item, and the
    accumulator stays under the limit. *)
Lemma allContinue_count es : forall acc,
  allContinue this acc es = true ->
  len acc + len es <= len (replay this acc es) /\
  (es <> [] -> len (replay this acc es) < syncLimit this).
Proof.
  induction es as [| e es IH]; intros acc H.
  - simpl. unfold len at 2. simpl. split; [lia | congruence].
  - simpl in H. apply andb_prop in H as [H1 H2].
    destruct (continues_adds _ _ H1) as [Ha Hb].
    destruct (IH _ H2) as [Hc Hd]. simpl replay.
    unfold replay in *. simpl fold_left.
    split.
    + unfold len at 2. simpl length. unfold len in Hc at 2. lia.
    + intros _. destruct es as [| e' es']; [exact Hb | apply Hd; congruence].
Qed.

Lemma allContinue_app es : forall acc es',
  allContinue this acc (es ++ es')%list =
  allContinue this acc es && allContinue this (replay this acc es) es'.
Proof.
  induction es as [| e es IH]; intros acc es'; [reflexivity |].
  simpl. rewrite IH. now rewrite andb_assoc.
Qed.

End Loop.

End LoopFacts.

(** ** Facts about a run *)

Module RunFacts.
Import JS Effects MemosService Trace PlatformFacts LoopFacts.

Section Run.

Variable Date_getTime : string -> option Z.
Variable requestUrl : Transport.
Variable this : MemosService.

Ltac run_step H :=
  cbn [fetchLoop] in H; unfold bind, await_requestUrl in H.

(** The shape of a run of the loop: exchanges that continue it, and then
    either no fuel, or one exchange that ends it. *)
Lemma fetchLoop_shape pageSize fuel : forall acc tok tr r tr',
  fetchLoop requestUrl this fuel pageSize acc tok tr = (r, tr') ->
  exists mids,
    allContinue this acc mids = true /\
    ((r = Diverge /\ tr' = (tr ++ mids)%list /\ length mids = fuel) \/
     (exists last,
        tr' = (tr ++ mids ++ [last])%list /\
        continues this (replay this acc mids) last = false /\
        r = finish this (replay this acc mids) last)).
Proof.
  induction fuel as [| fuel IH]; intros acc tok tr r tr' H.
  - inversion H; subst. exists []. split; [reflexivity |]. left.
    now rewrite app_nil_r.
  - run_step H.
    set (req := pageRequest this pageSize tok) in *.
    destruct (requestUrl (length tr) req) as [resp | err] eqn:Ho.
    + destruct (status resp =? 200) eqn:Hs; cbn [negb] in H.
      * destruct (json resp) as [| [memos |] next] eqn:Hj.
        -- inversion H; subst. exists []. split; [reflexivity |]. right.
           exists (req, Resolved resp). cbn [app replay fold_left].
           unfold continues, finish, pageOf. cbn [snd]. rewrite Hs, Hj. auto.
        -- destruct (len memos =? 0) eqn:Hl.
           ++ inversion H; subst. exists []. split; [reflexivity |]. right.
              exists (req, Resolved resp). cbn [app replay fold_left].
              unfold continues, finish, absorb, pageOf. cbn [snd]. rewrite Hs, Hj, Hl.
              apply Z.eqb_eq, len_zero_nil in Hl. subst memos.
              rewrite pushNeeded_nil. auto.
           ++ destruct ((len (pushNeeded this acc memos) >=? syncLimit this)
                        || negb (truthy next)) eqn:Hc.
              ** inversion H; subst. exists []. split; [reflexivity |]. right.
                 exists (req, Resolved resp). cbn [app replay fold_left].
                 unfold continues, finish, absorb, pageOf. cbn [snd].
                 rewrite Hs, Hj, Hl, Hc. auto.
              ** apply IH in H as (mids & Hall & Hend).
                 assert (Hp : pageOf (req, Resolved resp) = Some (memos, next))
                   by (unfold pageOf; cbn [snd]; now rewrite Hs, Hj).
                 assert (Hab : absorb this acc (req, Resolved resp)
                               = pushNeeded this acc memos)
                   by (unfold absorb; now rewrite Hp).
                 rewrite <- Hab in Hall, Hend.
                 exists ((req, Resolved resp) :: mids). split.
                 { cbn [allContinue]. rewrite Hall.
                   unfold continues. now rewrite Hp, Hl, Hc. }
                 change (replay this acc ((req, Resolved resp) :: mids))
                   with (replay this (absorb this acc (req, Resolved resp)) mids).
                 destruct Hend as [(-> & -> & Hlen) | (last & -> & Hn & ->)].
                 { left. split; [reflexivity |].
                   split; [now rewrite <- app_assoc | simpl; lia]. }
                 { right. exists last. split; [now rewrite <- app_assoc |].
                   split; [exact Hn | reflexivity]. }
        -- inversion H; subst. exists []. split; [reflexivity |]. right.
           exists (req, Resolved resp). cbn [app replay fold_left].
           unfold continues, finish, pageOf. cbn [snd]. rewrite Hs, Hj. auto.
      * inversion H; subst. exists []. split; [reflexivity |]. right.
        exists (req, Resolved resp). cbn [app replay fold_left].
        unfold continues, finish, pageOf. cbn [snd]. rewrite Hs. auto.
    + inversion H; subst. exists []. split; [reflexivity |]. right.
      exists (req, Rejected err). cbn [app replay fold_left].
      unfold continues, finish, pageOf. cbn [snd]. auto.
Qed.

(** The exchanges of a run: each request is a page request with the page
    size the loop was given, and each answer is the transport's. *)
Lemma fetchLoop_exchanges pageSize fuel : forall acc tok tr r tr',
  fetchLoop requestUrl this fuel pageSize acc tok tr = (r, tr') ->
  exists news,
    tr' = (tr ++ news)%list /\
    forall i e, nth_error news i = Some e ->
      (exists t, fst e = pageRequest this pageSize t) /\
      snd e = requestUrl (length tr + i)%nat (fst e).
Proof.
  induction fuel as [| fuel IH]; intros acc tok tr r tr' H.
  - inversion H; subst. exists []. split; [now rewrite app_nil_r |].
    intros [| i] e He; discriminate.
  - run_step H.
    set (req := pageRequest this pageSize tok) in *.
    assert (Hone : forall o, o = requestUrl (length tr) req ->
              forall i e, nth_error [(req, o)] i = Some e ->
                (exists t, fst e = pageRequest this pageSize t) /\
                snd e = requestUrl (length tr + i)%nat (fst e)).
    { intros o -> [| [| i]] e He; try discriminate.
      inversion He; subst. cbn [fst snd]. rewrite Nat.add_0_r.
      split; [now exists tok | reflexivity]. }
    destruct (requestUrl (length tr) req) as [resp | err] eqn:Ho.
    2: { inversion H; subst. exists [(req, Rejected err)]. split; [reflexivity |].
         now apply Hone. }
    assert (Hstop : forall c, (c, (tr ++ [(req, Resolved resp)])%list) = (r, tr') ->
              exists news, tr' = (tr ++ news)%list /\
                forall i e, nth_error news i = Some e ->
                  (exists t, fst e = pageRequest this pageSize t) /\
                  snd e = requestUrl (length tr + i)%nat (fst e)).
    { intros c Hc. inversion Hc; subst. exists [(req, Resolved resp)].
      split; [reflexivity | now apply Hone]. }
    destruct (status resp =? 200); cbn [negb] in H; [| now apply Hstop in H].
    destruct (json resp) as [| [memos |] next]; try (now apply Hstop in H).
    destruct (len memos =? 0); [now apply Hstop in H |].
    destruct ((len (pushNeeded this acc memos) >=? syncLimit this)
              || negb (truthy next)); [now apply Hstop in H |].
    apply IH in H as (news & -> & Hnews).
    exists ((req, Resolved resp) :: news). split; [now rewrite <- app_assoc |].
    intros [| i] e He.
    + apply (Hone (Resolved resp) eq_refl 0%nat). exact He.
    + cbn [nth_error] in He. apply Hnews in He as [Ht Hs]. split; [exact Ht |].
      rewrite Hs. f_equal. rewrite length_app. simpl. lia.
Qed.

(** More fuel does not change a run that ended. *)
Lemma fetchLoop_more_fuel pageSize fuel : forall acc tok tr r tr' extra,
  fetchLoop requestUrl this fuel pageSize acc tok tr = (r, tr') ->
  r <> Diverge ->
  fetchLoop requestUrl this (fuel + extra) pageSize acc tok tr = (r, tr').
Proof.
  induction fuel as [| fuel IH]; intros acc tok tr r tr' extra H Hr.
  - inversion H; subst. congruence.
  - cbn [Nat.add]. run_step H. cbn [fetchLoop]. unfold bind, await_requestUrl.
    destruct (requestUrl (length tr) (pageRequest this pageSize tok)) as [resp | err];
      [| exact H].
    destruct (negb (status resp =? 200)); [exact H |].
    destruct (json resp) as [| [memos |] next]; try exact H.
    destruct (len memos =? 0); [exact H |].
    destruct ((len (pushNeeded this acc memos) >=? syncLimit this)
              || negb (truthy next)); [exact H |].
    now apply IH.
Qed.

(** The loop ends within [syncLimit] iterations, and within one when the
    limit is not positive. *)
Lemma fetchLoop_ends pageSize fuel tok tr :
  (1 <= fuel)%nat -> syncLimit this <= Z.of_nat fuel ->
  fst (fetchLoop requestUrl this fuel pageSize [] tok tr) <> Diverge.
Proof.
  intros H1 H2.
  destruct (fetchLoop requestUrl this fuel pageSize [] tok tr) as [r tr'] eqn:E.
  cbn [fst]. intros ->.
  apply fetchLoop_shape in E as (mids & Hall & [(_ & _ & Hlen) | (last & _ & _ & Hf)]).
  - destruct (allContinue_count this mids [] Hall) as [Ha Hb].
    assert (Hne : mids <> []) by (intros ->; simpl in Hlen; lia).
    specialize (Hb Hne). unfold len in Ha at 1 2. simpl length in Ha. lia.
  - unfold finish in Hf. destruct (snd last) as [resp | err]; [| discriminate].
    destruct (status resp =? 200); [| discriminate].
    destruct (json resp) as [| [memos |] next]; discriminate.
Qed.

End Run.

End RunFacts.

(** ** Facts about the final sort *)

Module SortFacts.
Import JS Effects MemosService Trace.

Lemma insert_perm {A} (cmp : A -> A -> option Z) (x : A) (l : list A) :
  Permutation (insert cmp x l) (x :: l).
Proof.
  induction l as [| y l IH]; simpl; [reflexivity |].
  destruct (cmpValue (cmp x y) <=? 0); [reflexivity |].
  rewrite IH. apply perm_swap.
Qed.

Lemma sort_perm {A} (cmp : A -> A -> option Z) (l : list A) :
  Permutation (sort cmp l) l.
Proof.
  induction l as [| x l IH]; simpl; [reflexivity |].
  rewrite insert_perm. now constructor.
Qed.

Lemma sort_length {A} (cmp : A -> A -> option Z) (l : list A) :
  len (sort cmp l) = len l.
Proof. unfold len. now rewrite (Permutation_length (sort_perm cmp l)). Qed.

Lemma sorted_apart {A} (R : A -> A -> Prop) (l : list A) :
  StronglySorted R l ->
  forall pre a mid b post, l = (pre ++ a :: mid ++ b :: post)%list -> R a b.
Proof.
  induction 1 as [| x l Hs IH Hx]; intros pre a mid b post E.
  - now destruct pre.
  - destruct pre as [| p pre]; simpl in E; inversion E; subst.
    + rewrite Forall_forall in Hx. apply Hx.
      apply in_or_app. right. now left.
    + eapply IH. reflexivity.
Qed.

Section ByCreateTime.

Variable Date_getTime : string -> option Z.

Local Abbreviation cmp := (byCreateTimeDesc Date_getTime).
Local Abbreviation okTime := (parseable Date_getTime).

Lemma cmp_parseable x y :
  okTime x -> okTime y ->
  exists tx ty, timeOf Date_getTime x = Some tx /\ timeOf Date_getTime y = Some ty /\
                cmpValue (cmp x y) = ty - tx.
Proof.
  unfold parseable, cmp, byCreateTimeDesc, timeOf. intros Hx Hy.
  destruct (Date_getTime (createTime x)) as [tx |]; [| congruence].
  destruct (Date_getTime (createTime y)) as [ty |]; [| congruence].
  now exists tx, ty.
Qed.

Lemma insert_sorted x l :
  okTime x -> Forall okTime l ->
  StronglySorted (notBefore Date_getTime) l ->
  StronglySorted (notBefore Date_getTime) (insert cmp x l).
Proof.
  intros Hx Hl Hs. induction Hs as [| y l Hs IH Hy]; simpl.
  - repeat constructor.
  - inversion Hl as [| ? ? Hpy Hpl]; subst.
    destruct (cmp_parseable x y Hx Hpy) as (tx & ty & Ex & Ey & Ec).
    rewrite Ec. destruct (Z.leb_spec (ty - tx) 0) as [Hle | Hgt].
    + constructor; [now constructor |].
      constructor.
      * exists tx, ty. repeat split; [assumption .. | lia].
      * rewrite Forall_forall in *. intros z Hz.
        destruct (Hy z Hz) as (ty' & tz & Ey' & Ez & Hzy).
        exists tx, tz. repeat split; [assumption .. |].
        rewrite Ey in Ey'. inversion Ey'; subst. lia.
    + constructor; [now apply IH |].
      rewrite Forall_forall in *. intros z Hz.
      apply (Permutation_in _ (insert_perm cmp x l)) in Hz.
      destruct Hz as [<- | Hz]; [| now apply Hy].
      exists ty, tx. repeat split; [assumption .. | lia].
Qed.

(** The sort puts the most recent memo first. *)
Lemma sort_sorted l :
  Forall okTime l -> StronglySorted (notBefore Date_getTime) (sort cmp l).
Proof.
  induction 1 as [| x l Hx Hl IH]; simpl; [constructor |].
  apply insert_sorted; [assumption | | assumption].
  rewrite Forall_forall in *. intros z Hz.
  apply Hl. now apply (Permutation_in _ (sort_perm cmp l)).
Qed.

Lemma insert_stable t x l :
  okTime x -> Forall okTime l ->
  filter (createdAt Date_getTime t) (insert cmp x l)
  = filter (createdAt Date_getTime t) (x :: l).
Proof.
  intros Hx Hl. induction Hl as [| y l Hy Hl IH]; [reflexivity |].
  cbn [insert].
  destruct (cmp_parseable x y Hx Hy) as (tx & ty & Ex & Ey & Ec).
  rewrite Ec. destruct (Z.leb_spec (ty - tx) 0) as [Hle | Hgt]; [reflexivity |].
  cbn [filter] in *. rewrite IH.
  assert (Cx : createdAt Date_getTime t x = (tx =? t))
    by (unfold createdAt; now rewrite Ex).
  assert (Cy : createdAt Date_getTime t y = (ty =? t))
    by (unfold createdAt; now rewrite Ey).
  rewrite Cx, Cy.
  destruct (Z.eqb_spec ty t), (Z.eqb_spec tx t); try reflexivity. lia.
Qed.

(** The sort keeps memos of one time in the order it found them. *)
Lemma sort_stable t l :
  Forall okTime l ->
  filter (createdAt Date_getTime t) (sort cmp l) = filter (createdAt Date_getTime t) l.
Proof.
  induction 1 as [| x l Hx Hl IH]; [reflexivity |].
  cbn [sort fold_right]. fold (sort cmp l).
  rewrite insert_stable.
  - cbn [filter]. now rewrite IH.
  - assumption.
  - rewrite Forall_forall in *. intros z Hz.
    apply Hl. now apply (Permutation_in _ (sort_perm cmp l)).
Qed.

End ByCreateTime.

End SortFacts.

(** ** The paged fetch *)

Module FetchAllMemos.
Import JS Effects MemosService Trace PlatformFacts LoopFacts RunFacts SortFacts.

Section Fetch.

Variable Date_getTime : string -> option Z.
Variable requestUrl : Transport.
Variable this : MemosService.

Local Abbreviation loop fuel :=
  (fetchLoop requestUrl this fuel (Z.min 100 (syncLimit this)) [] None []).
Local Abbreviation cmp := (byCreateTimeDesc Date_getTime).

(** [fetchAllMemos] is the check of the URL, the loop, and [conclude]. *)
Lemma fetchAllMemos_unfold fuel :
  fetchAllMemos Date_getTime requestUrl this fuel [] =
  if includes "/api/v1" (apiUrl this)
  then (conclude Date_getTime this (fst (loop fuel)), snd (loop fuel))
  else (Throw (Error "API URL 格式不正确，请确保包含 /api/v1"), []).
Proof.
  unfold fetchAllMemos, try_catch, Math_min.
  destruct (includes "/api/v1" (apiUrl this)); cbn [negb]; [| reflexivity].
  unfold bind.
  destruct (loop fuel) as [[acc | e |] tr]; cbn [fst snd conclude]; try reflexivity.
  destruct (instanceofTypeError e && String.eqb (message e) "Failed to fetch");
    reflexivity.
Qed.

Lemma split_last_cases {A} (pre : list A) e post mids last :
  (pre ++ e :: post)%list = (mids ++ [last])%list ->
  (post = [] /\ pre = mids /\ e = last) \/
  (exists post', post = (post' ++ [last])%list /\ mids = (pre ++ e :: post')%list).
Proof.
  intros E. destruct post as [| x post]; [left | right].
  - apply app_inj_tail in E as [-> ->]. auto.
  - destruct (@exists_last _ (x :: post)) as (post' & y & Ey); [discriminate |].
    rewrite Ey in E |- *. rewrite app_comm_cons, app_assoc in E.
    apply app_inj_tail in E as [<- ->].
    now exists post'.
Qed.

(** Where an exchange stands in a run: the exchanges before it continued
    the loop, and it continues the loop too, or it is the last one and
    decides how the call ends. *)
Lemma run_position fuel r tr pre e post :
  fetchAllMemos Date_getTime requestUrl this fuel [] = (r, tr) ->
  tr = (pre ++ e :: post)%list ->
  allContinue this [] pre = true /\
  (continues this (replay this [] pre) e = true \/
   (post = [] /\ continues this (replay this [] pre) e = false /\
    r = conclude Date_getTime this (finish this (replay this [] pre) e))).
Proof.
  intros Hrun Htr. rewrite fetchAllMemos_unfold in Hrun.
  destruct (includes "/api/v1" (apiUrl this)).
  2: { inversion Hrun; subst. now destruct pre. }
  destruct (loop fuel) as [r0 tr0] eqn:E. cbn [fst snd] in Hrun.
  inversion Hrun; subst r tr0. clear Hrun.
  apply fetchLoop_shape in E as (mids & Hall & Hend). cbn [app] in Hend.
  assert (Hmid : forall post', mids = (pre ++ e :: post')%list ->
            allContinue this [] pre = true /\
            continues this (replay this [] pre) e = true).
  { intros post' ->. rewrite allContinue_app in Hall.
    apply andb_prop in Hall as [Hpre Hall]. cbn [allContinue] in Hall.
    apply andb_prop in Hall as [Hall _]. auto. }
  destruct Hend as [(_ & -> & _) | (last & -> & Hn & ->)].
  - destruct (Hmid post Htr). auto.
  - symmetry in Htr.
    apply split_last_cases in Htr as [(-> & -> & ->) | (post' & -> & Hm)].
    + auto.
    + destruct (Hmid post' Hm). auto.
Qed.

(** A call that returns returns the replay of its exchanges, sorted. *)
Lemma run_normal fuel l tr :
  fetchAllMemos Date_getTime requestUrl this fuel [] = (Normal l, tr) ->
  l = sort cmp (replay this [] tr).
Proof.
  intros Hrun. rewrite fetchAllMemos_unfold in Hrun.
  destruct (includes "/api/v1" (apiUrl this)); [| discriminate].
  destruct (loop fuel) as [r0 tr0] eqn:E. cbn [fst snd] in Hrun.
  inversion Hrun as [[Hc Ht]]. subst tr0.
  apply fetchLoop_shape in E as (mids & Hall & Hend). cbn [app] in Hend.
  destruct Hend as [(-> & _) | (last & -> & Hn & ->)]; [discriminate |].
  rewrite replay_snoc. unfold finish, conclude in Hc.
  destruct (snd last) as [resp | err].
  - destruct (status resp =? 200).
    + destruct (json resp) as [| [memos |] next]; try discriminate.
      now inversion Hc.
    + discriminate.
  - destruct (instanceofTypeError err && String.eqb (message err) "Failed to fetch");
      discriminate.
Qed.

(** With fuel for [syncLimit] iterations, and for one, the call ends. *)
Lemma run_ends fuel :
  (1 <= fuel)%nat -> syncLimit this <= Z.of_nat fuel ->
  fst (fetchAllMemos Date_getTime requestUrl this fuel []) <> Diverge.
Proof.
  intros H1 H2. rewrite fetchAllMemos_unfold.
  destruct (includes "/api/v1" (apiUrl this)); [| discriminate].
  cbn [fst]. pose proof (fetchLoop_ends requestUrl this (Z.min 100 (syncLimit this))
                           fuel None [] H1 H2) as Hne.
  destruct (fst (loop fuel)) as [acc | err |]; cbn [conclude].
  - discriminate.
  - destruct (instanceofTypeError err && String.eqb (message err) "Failed to fetch");
      discriminate.
  - congruence.
Qed.

(** C1. With a positive [syncLimit], whatever the server answers, a call
    with fuel for [syncLimit] iterations ends, and a call that returns
    returns at most [syncLimit] memos: the memos of the pages in the order
    they were fetched, where each page was cut to the budget that remained
    when it arrived. *)
Theorem fetchAllMemos_at_most_syncLimit fuel l tr :
  0 < syncLimit this ->
  fetchAllMemos Date_getTime requestUrl this fuel [] = (Normal l, tr) ->
  len l <= syncLimit this /\
  Permutation l (replay this [] tr) /\
  (forall pre e post memos next,
     tr = (pre ++ e :: post)%list -> pageOf e = Some (memos, next) ->
     replay this [] (pre ++ [e])%list =
     (replay this [] pre
        ++ firstn (Z.to_nat (syncLimit this - len (replay this [] pre))) memos)%list) /\
  (forall fuel', (Z.to_nat (syncLimit this) <= fuel')%nat ->
     fst (fetchAllMemos Date_getTime requestUrl this fuel' []) <> Diverge).
Proof.
  intros Hpos Hrun. apply run_normal in Hrun. subst l.
  assert (Hb : forall es, len (replay this [] es) <= syncLimit this).
  { intros es. apply replay_bounded. unfold len. simpl. lia. }
  repeat split.
  - rewrite sort_length. apply Hb.
  - apply sort_perm.
  - intros pre e post memos next _ Hp.
    rewrite replay_snoc. unfold absorb. rewrite Hp.
    apply pushNeeded_truncates, Hb.
  - intros fuel' Hf. apply run_ends; lia.
Qed.

(** C2. A page with no memos ends the loop: the exchange that delivered it
    is the last of the call, cursor or no cursor, and the call returns what
    it had accumulated before, sorted. *)
Theorem fetchAllMemos_stops_on_empty_page fuel r tr pre e post next :
  fetchAllMemos Date_getTime requestUrl this fuel [] = (r, tr) ->
  tr = (pre ++ e :: post)%list ->
  pageOf e = Some ([], next) ->
  post = [] /\ r = Normal (sort cmp (replay this [] pre)).
Proof.
  intros Hrun Htr Hp.
  destruct (run_position _ _ _ _ _ _ Hrun Htr) as [_ [Hc | (-> & _ & ->)]].
  - unfold continues in Hc. rewrite Hp in Hc. discriminate.
  - split; [reflexivity |].
    unfold pageOf in Hp. unfold finish, absorb, pageOf.
    destruct (snd e) as [resp | err]; [| discriminate].
    destruct (status resp =? 200); [| discriminate].
    destruct (json resp) as [| [memos |] next']; try discriminate.
    inversion Hp; subst. now rewrite pushNeeded_nil.
Qed.

(** C3. A page without a cursor (none, or an empty one) ends the loop,
    whatever is left of the budget: the exchange that delivered it is the
    last of the call, which returns the memos accumulated with that page.
    And an exchange after which the accumulator has reached [syncLimit] is
    the last one too. *)
Theorem fetchAllMemos_stops_without_cursor_or_at_limit fuel r tr pre e post :
  fetchAllMemos Date_getTime requestUrl this fuel [] = (r, tr) ->
  tr = (pre ++ e :: post)%list ->
  (forall memos next,
     pageOf e = Some (memos, next) -> truthy next = false ->
     post = [] /\ r = Normal (sort cmp (replay this [] (pre ++ [e])%list))) /\
  (syncLimit this <= len (replay this [] (pre ++ [e])%list) -> post = []).
Proof.
  intros Hrun Htr.
  destruct (run_position _ _ _ _ _ _ Hrun Htr) as [_ [Hc | (-> & _ & ->)]].
  - apply continues_inv in Hc as (memos & next & Hp & _ & Ht & Hlt). split.
    + intros memos' next' Hp' Ht'. rewrite Hp in Hp'. inversion Hp'; subst.
      congruence.
    + rewrite replay_snoc. lia.
  - split; [| reflexivity].
    intros memos next Hp _. split; [reflexivity |].
    rewrite replay_snoc. unfold pageOf in Hp. unfold finish.
    destruct (snd e) as [resp | err]; [| discriminate].
    destruct (status resp =? 200); [| discriminate].
    destruct (json resp) as [| [memos' |] next']; try discriminate.
    reflexivity.
Qed.

(** C4. The memos a call returns are those it accumulated, in another
    order; when the time of each of them is parseable, a memo that comes
    before another is at least as recent, and the memos of one time keep
    the order in which they were fetched. *)
Theorem fetchAllMemos_sorted_by_createTime fuel l tr :
  fetchAllMemos Date_getTime requestUrl this fuel [] = (Normal l, tr) ->
  (forall m, In m l -> parseable Date_getTime m) ->
  Permutation l (replay this [] tr) /\
  (forall pre a mid b post,
     l = (pre ++ a :: mid ++ b :: post)%list -> notBefore Date_getTime a b) /\
  (forall t, filter (createdAt Date_getTime t) l
             = filter (createdAt Date_getTime t) (replay this [] tr)).
Proof.
  intros Hrun Hok. apply run_normal in Hrun. subst l.
  assert (Hall : Forall (parseable Date_getTime) (replay this [] tr)).
  { rewrite Forall_forall. intros m Hm. apply Hok.
    apply (Permutation_in _ (Permutation_sym (sort_perm cmp _))). exact Hm. }
  split; [apply sort_perm |]. split.
  - apply sorted_apart. now apply sort_sorted.
  - intros t. now apply sort_stable.
Qed.

(** C5, as the code has it. Every request of a call asks for the path
    [/memos] of the API with a query whose [pageSize] is the decimal of
    [min(100, syncLimit)], the same for every page; that size is at most
    100 and at most [syncLimit]. *)
Theorem fetchAllMemos_pageSize fuel r tr e :
  fetchAllMemos Date_getTime requestUrl this fuel [] = (r, tr) ->
  In e tr ->
  let pageSize := Z.min 100 (syncLimit this) in
  (exists pageToken,
     url (fst e) = (apiUrl this ++ "/memos") ++ "?"
                   ++ URLSearchParams_toString (pageParams pageSize pageToken) /\
     URLSearchParams_get "pageSize" (pageParams pageSize pageToken)
     = Some (toString pageSize)) /\
  pageSize <= 100 /\ pageSize <= syncLimit this.
Proof.
  intros Hrun Hin pageSize. split; [| unfold pageSize; lia].
  rewrite fetchAllMemos_unfold in Hrun.
  destruct (includes "/api/v1" (apiUrl this)).
  2: { inversion Hrun; subst. contradiction. }
  destruct (loop fuel) as [r0 tr0] eqn:E. cbn [fst snd] in Hrun.
  inversion Hrun; subst r tr0. clear Hrun.
  apply fetchLoop_exchanges in E as (news & -> & Hnews). cbn [app] in Hin.
  apply In_nth_error in Hin as [i Hi].
  destruct (Hnews i e Hi) as [[t Ht] _].
  exists t. rewrite Ht. split; [reflexivity |].
  apply pageParams_pageSize.
Qed.

(** C6. When the API URL does not contain [/api/v1], the call throws the
    error about the format of the URL, and has issued no request. *)
Theorem fetchAllMemos_rejects_bad_apiUrl fuel :
  includes "/api/v1" (apiUrl this) = false ->
  fetchAllMemos Date_getTime requestUrl this fuel []
  = (Throw (Error "API URL 格式不正确，请确保包含 /api/v1"), []).
Proof. intros H. rewrite fetchAllMemos_unfold. now rewrite H. Qed.

(** C7. A response whose status is not 200 ends the call: its exchange is
    the last one (the request is not sent again), and the call throws an
    error whose message holds the status and the body of the response as
    they are; no memos are returned. *)
Theorem fetchAllMemos_fails_on_non_200 fuel r tr pre req resp post :
  fetchAllMemos Date_getTime requestUrl this fuel [] = (r, tr) ->
  tr = (pre ++ (req, Resolved resp) :: post)%list ->
  status resp <> 200 ->
  post = [] /\
  r = Throw (Error ("HTTP " ++ toString (status resp) ++ ": 请求失败"
                    ++ newline ++ "响应内容: " ++ text resp)).
Proof.
  intros Hrun Htr Hs. apply Z.eqb_neq in Hs.
  destruct (run_position _ _ _ _ _ _ Hrun Htr) as [_ [Hc | (-> & _ & ->)]].
  - unfold continues, pageOf in Hc. cbn [snd] in Hc. rewrite Hs in Hc. discriminate.
  - split; [reflexivity |]. unfold finish. cbn [snd]. now rewrite Hs.
Qed.

Lemma run_more_fuel fuel extra r tr :
  fetchAllMemos Date_getTime requestUrl this fuel [] = (r, tr) ->
  r <> Diverge ->
  fetchAllMemos Date_getTime requestUrl this (fuel + extra) [] = (r, tr).
Proof.
  rewrite !fetchAllMemos_unfold.
  destruct (includes "/api/v1" (apiUrl this)); [| auto].
  destruct (loop fuel) as [r0 tr0] eqn:E. cbn [fst snd].
  intros H Hr. inversion H; subst r tr0.
  rewrite (fetchLoop_more_fuel _ _ _ _ _ _ _ _ _ extra E); [reflexivity |].
  intros ->. now apply Hr.
Qed.

(** C10. With [syncLimit] at least 1 and a server that answers every
    request with a page in good order, cursor or no cursor, the call ends:
    with fuel for [syncLimit] iterations or more it gives one and the same
    result, after at most [syncLimit] requests; it returns when the API URL
    is accepted; and every page that is not empty adds a memo. *)
Theorem fetchAllMemos_terminates :
  1 <= syncLimit this ->
  (forall i req, wellFormed (requestUrl i req)) ->
  exists r tr,
    (forall fuel, (Z.to_nat (syncLimit this) <= fuel)%nat ->
       fetchAllMemos Date_getTime requestUrl this fuel [] = (r, tr)) /\
    r <> Diverge /\
    len tr <= syncLimit this /\
    (includes "/api/v1" (apiUrl this) = true -> exists l, r = Normal l) /\
    (forall pre e post memos next,
       tr = (pre ++ e :: post)%list -> pageOf e = Some (memos, next) -> memos <> [] ->
       len (replay this [] pre) + 1 <= len (replay this [] (pre ++ [e])%list)).
Proof.
  intros Hlim Hwf.
  set (n := Z.to_nat (syncLimit this)).
  destruct (fetchAllMemos Date_getTime requestUrl this n []) as [r tr] eqn:Hrun.
  assert (Hr : r <> Diverge).
  { pose proof (run_ends n) as H. rewrite Hrun in H. apply H; unfold n; lia. }
  exists r, tr. split; [| split; [exact Hr |]].
  { intros fuel Hf. replace fuel with (n + (fuel - n))%nat by lia.
    now apply run_more_fuel. }
  assert (Hunder : forall pre e post, tr = (pre ++ e :: post)%list ->
            len (replay this [] pre) < syncLimit this /\ len pre < syncLimit this).
  { intros pre e post Htr.
    destruct (run_position _ _ _ _ _ _ Hrun Htr) as [Hpre _].
    destruct (allContinue_count this pre [] Hpre) as [Ha Hb].
    unfold len in Ha at 1. simpl length in Ha.
    destruct pre as [| p pre]; [unfold replay, len; simpl; lia |].
    assert (len (replay this [] (p :: pre)) < syncLimit this)
      by (apply Hb; discriminate).
    lia. }
  split; [| split].
  - destruct tr as [| x tr']; [unfold len; simpl; lia |].
    destruct (@exists_last _ (x :: tr')) as (pre & e & Etr); [discriminate |].
    destruct (Hunder pre e [] Etr) as [_ Hp].
    rewrite Etr, len_app. unfold len at 2. simpl. lia.
  - intros Hi. rewrite fetchAllMemos_unfold, Hi in Hrun.
    destruct (loop n) as [r0 tr0] eqn:E. cbn [fst snd] in Hrun.
    inversion Hrun; subst r tr0. clear Hrun.
    pose proof E as E'.
    apply fetchLoop_shape in E as (mids & _ & Hend). cbn [app] in Hend.
    destruct Hend as [(-> & _) | (last & -> & _ & ->)]; [now contradiction Hr |].
    apply fetchLoop_exchanges in E' as (news & En & Hnews). cbn [app] in En.
    assert (Hin : In last news) by (rewrite <- En; apply in_or_app; right; now left).
    apply In_nth_error in Hin as [i Hi'].
    destruct (Hnews i last Hi') as [_ Hs].
    destruct (Hwf (length (@nil Exchange) + i)%nat (fst last))
      as (resp & memos & next & Ho & Hst & Hj).
    unfold finish. rewrite Hs, Ho, Hst, Hj. cbn. eauto.
  - intros pre e post memos next Htr Hp Hne.
    destruct (Hunder pre e post Htr) as [Hlt _].
    rewrite replay_snoc. unfold absorb. rewrite Hp.
    now apply pushNeeded_adds.
Qed.

End Fetch.

Import Samples.

Lemma run_twoPages :
  fetchAllMemos isoTime twoPages (svc 3) 3 []
  = (Normal [m2; m1; m3], [firstOfTwo; secondOfTwo]).
Proof. vm_compute. reflexivity. Defined.

Lemma fetchAllMemos_at_most_syncLimit_witness :
  0 < syncLimit (svc 3) /\
  len [m2; m1; m3] <= syncLimit (svc 3) /\
  replay (svc 3) [] ([firstOfTwo] ++ [secondOfTwo])
  = (replay (svc 3) [] [firstOfTwo]
       ++ firstn (Z.to_nat (syncLimit (svc 3) - len (replay (svc 3) [] [firstOfTwo])))
            [m3; m4])%list.
Proof.
  assert (H0 : 0 < syncLimit (svc 3)) by reflexivity.
  destruct (fetchAllMemos_at_most_syncLimit isoTime twoPages (svc 3) 3 _ _
              H0 run_twoPages) as (Hlen & _ & Hcut & _).
  split; [exact H0 |]. split; [exact Hlen |].
  apply (Hcut [firstOfTwo] secondOfTwo [] [m3; m4] (Some "t2")); reflexivity.
Defined.

Lemma fetchAllMemos_stops_on_empty_page_witness :
  fetchAllMemos isoTime emptySecond (svc 3) 3 []
  = (Normal [m2; m1], [firstOfTwo; emptyPage]) /\
  pageOf emptyPage = Some ([], Some "t2") /\
  (@nil Exchange = [] /\
   Normal [m2; m1]
   = Normal (sort (byCreateTimeDesc isoTime) (replay (svc 3) [] [firstOfTwo]))).
Proof.
  assert (Hrun : fetchAllMemos isoTime emptySecond (svc 3) 3 []
                 = (Normal [m2; m1], [firstOfTwo; emptyPage]))
    by (vm_compute; reflexivity).
  split; [exact Hrun |]. split; [reflexivity |].
  exact (fetchAllMemos_stops_on_empty_page isoTime emptySecond (svc 3) 3 _ _
           [firstOfTwo] emptyPage [] (Some "t2") Hrun eq_refl eq_refl).
Defined.

Lemma fetchAllMemos_stops_without_cursor_or_at_limit_witness :
  fetchAllMemos isoTime noCursor (svc 3) 3 [] = (Normal [m2; m1], [lonePage]) /\
  pageOf lonePage = Some ([m1; m2], None) /\
  (@nil Exchange = [] /\
   Normal [m2; m1]
   = Normal (sort (byCreateTimeDesc isoTime) (replay (svc 3) [] ([] ++ [lonePage])))) /\
  syncLimit (svc 3) <= len (replay (svc 3) [] ([firstOfTwo] ++ [secondOfTwo])) /\
  @nil Exchange = [].
Proof.
  assert (Hrun : fetchAllMemos isoTime noCursor (svc 3) 3 []
                 = (Normal [m2; m1], [lonePage]))
    by (vm_compute; reflexivity).
  assert (Hfull : syncLimit (svc 3)
                  <= len (replay (svc 3) [] ([firstOfTwo] ++ [secondOfTwo])))
    by (vm_compute; discriminate).
  split; [exact Hrun |]. split; [reflexivity |]. split; [| split].
  - exact (proj1 (fetchAllMemos_stops_without_cursor_or_at_limit isoTime noCursor
                    (svc 3) 3 _ _ [] lonePage [] Hrun eq_refl)
             [m1; m2] None eq_refl eq_refl).
  - exact Hfull.
  - exact (proj2 (fetchAllMemos_stops_without_cursor_or_at_limit isoTime twoPages
                    (svc 3) 3 _ _ [firstOfTwo] secondOfTwo [] run_twoPages eq_refl)
             Hfull).
Defined.

Lemma fetchAllMemos_sorted_by_createTime_witness :
  (forall m, In m [m2; m1; m3] -> parseable isoTime m) /\
  notBefore isoTime m2 m3 /\
  filter (createdAt isoTime 1705314600000) [m2; m1; m3] = [m1; m3].
Proof.
  assert (Hok : forall m, In m [m2; m1; m3] -> parseable isoTime m).
  { intros m [<- | [<- | [<- | []]]]; vm_compute; discriminate. }
  destruct (fetchAllMemos_sorted_by_createTime isoTime twoPages (svc 3) 3 _ _
              run_twoPages Hok) as (_ & Hdesc & Hstable).
  split; [exact Hok |]. split.
  - exact (Hdesc [] m2 [m1] m3 [] eq_refl).
  - rewrite Hstable. vm_compute. reflexivity.
Defined.

(** C5, as it is stated, fails: under a limit of 3, after a first page of
    two memos, the second request still asks for a page of 3, one memo
    being left of the budget. *)
Lemma pageSize_exceeds_remaining_budget :
  fetchAllMemos isoTime twoPages (svc 3) 3 []
  = (Normal [m2; m1; m3], [firstOfTwo] ++ [secondOfTwo])%list /\
  url (fst secondOfTwo)
  = "https://memos.example/api/v1/memos?state=NORMAL&pageSize=3&pageToken=t1" /\
  syncLimit (svc 3) - len (replay (svc 3) [] [firstOfTwo]) = 1 /\
  ~ (Z.min 100 (syncLimit (svc 3))
     <= syncLimit (svc 3) - len (replay (svc 3) [] [firstOfTwo])).
Proof.
  split; [exact run_twoPages |]. split; [vm_compute; reflexivity |].
  split; [vm_compute; reflexivity |]. vm_compute. intros H. now apply H.
Qed.

Lemma fetchAllMemos_pageSize_witness :
  In secondOfTwo [firstOfTwo; secondOfTwo] /\
  (exists pageToken,
     url (fst secondOfTwo)
     = (apiUrl (svc 3) ++ "/memos") ++ "?"
       ++ URLSearchParams_toString (pageParams (Z.min 100 3) pageToken) /\
     URLSearchParams_get "pageSize" (pageParams (Z.min 100 3) pageToken)
     = Some (toString (Z.min 100 3))).
Proof.
  assert (Hin : In secondOfTwo [firstOfTwo; secondOfTwo]) by (right; now left).
  split; [exact Hin |].
  exact (proj1 (fetchAllMemos_pageSize isoTime twoPages (svc 3) 3 _ _ secondOfTwo
                  run_twoPages Hin)).
Defined.

Lemma fetchAllMemos_rejects_bad_apiUrl_witness :
  includes "/api/v1" "https://memos.example/api/v2" = false /\
  fetchAllMemos isoTime twoPages (mkService "https://memos.example/api/v2" "token" 3) 3 []
  = (Throw (Error "API URL 格式不正确，请确保包含 /api/v1"), []).
Proof.
  split; [reflexivity |].
  apply (fetchAllMemos_rejects_bad_apiUrl isoTime twoPages
           (mkService "https://memos.example/api/v2" "token" 3) 3).
  reflexivity.
Defined.

Lemma run_refusedSecond :
  fetchAllMemos isoTime refusedSecond (svc 3) 3 []
  = (Throw (Error ("HTTP 404: 请求失败" ++ newline ++ "响应内容: nope")),
     [firstOfTwo] ++ (ask 3 (Some "t1"), Resolved notFound) :: [])%list.
Proof. vm_compute. reflexivity. Defined.

Lemma fetchAllMemos_fails_on_non_200_witness :
  status notFound <> 200 /\
  (@nil Exchange = [] /\
   Throw (Error ("HTTP 404: 请求失败" ++ newline ++ "响应内容: nope"))
   = Throw (A := list MemoItem)
       (Error ("HTTP " ++ toString (status notFound) ++ ": 请求失败"
               ++ newline ++ "响应内容: " ++ text notFound))).
Proof.
  assert (Hs : status notFound <> 200) by discriminate.
  split; [exact Hs |].
  exact (fetchAllMemos_fails_on_non_200 isoTime refusedSecond (svc 3) 3 _ _
           [firstOfTwo] (ask 3 (Some "t1")) notFound [] run_refusedSecond eq_refl Hs).
Defined.

Lemma fetchAllMemos_terminates_witness :
  1 <= syncLimit (svc 3) /\
  (forall i req, wellFormed (endless m1 i req)) /\
  exists r tr,
    (forall fuel, (3 <= fuel)%nat ->
       fetchAllMemos isoTime (endless m1) (svc 3) fuel [] = (r, tr)) /\
    r <> Diverge /\ len tr <= 3.
Proof.
  assert (H1 : 1 <= syncLimit (svc 3)) by discriminate.
  assert (Hwf : forall i req, wellFormed (endless m1 i req)).
  { intros i req. exists (page [m1] (Some "more")), [m1], (Some "more"). auto. }
  split; [exact H1 |]. split; [exact Hwf |].
  destruct (fetchAllMemos_terminates isoTime (endless m1) (svc 3) H1 Hwf)
    as (r & tr & Hf & Hr & Hl & _).
  exists r, tr. auto.
Defined.

End FetchAllMemos.

(** ** The attachment download *)

Module DownloadResource.
Import JS Effects MemosService Trace PlatformFacts Samples.

Lemma split_nonempty sep s : split sep s <> [].
Proof.
  destruct s as [| c s]; cbn [split]; [discriminate |].
  destruct (Ascii.eqb c sep); [discriminate |].
  destruct (split sep s); discriminate.
Qed.

Lemma pop_app {A} (k l : list A) : l <> [] -> pop (k ++ l)%list = pop l.
Proof.
  intros Hl. induction k as [| x k IH]; [reflexivity |].
  cbn [app pop]. destruct (k ++ l)%list eqn:E; [| exact IH].
  apply app_eq_nil in E as [_ ->]. contradiction.
Qed.

(** Up to a separator, [split] is the pieces before it and the pieces
    after it. *)
Lemma split_at_separator sep pre rest :
  exists h t, split sep (pre ++ String sep rest) = ((h :: t) ++ split sep rest)%list.
Proof.
  induction pre as [| c pre (h & t & IH)]; cbn [append split].
  - rewrite Ascii.eqb_refl. now exists EmptyString, [].
  - rewrite IH. destruct (Ascii.eqb c sep).
    + now exists EmptyString, (h :: t).
    + now exists (String c h), t.
Qed.

Lemma split_without_separator sep s :
  includes (String sep EmptyString) s = false -> split sep s = [s].
Proof.
  induction s as [| c s IH]; [reflexivity |].
  cbn [includes startsWith split]. intros H.
  apply orb_false_elim in H as [Hc Hs].
  destruct s; cbn [startsWith] in Hc; rewrite andb_true_r in Hc;
    rewrite Ascii.eqb_sym, Hc; now rewrite (IH Hs).
Qed.

(** The last piece of a name is what follows its last slash. *)
Lemma pop_split_last pre seg :
  includes "/" seg = false -> pop (split "/" (pre ++ "/" ++ seg)) = Some seg.
Proof.
  intros H. destruct (split_at_separator "/" pre seg) as (h & t & E).
  cbn [append]. rewrite E, pop_app by apply split_nonempty.
  now rewrite split_without_separator.
Qed.

(** [/api/v1] does not overlap itself: a URL that ends with it and has it
    nowhere before loses exactly this ending. *)
Lemma replace_suffix base :
  includes "/api/v1" base = false -> replace "/api/v1" "" (base ++ "/api/v1") = base.
Proof.
  induction base as [| c b IH]; [reflexivity |].
  cbn [includes]. intros H. apply orb_false_elim in H as [Hc Hb].
  cbn [append replace].
  assert (Hn : startsWith "/api/v1" (String c (b ++ "/api/v1")) = false).
  { destruct (startsWith "/api/v1" (String c (b ++ "/api/v1"))) eqn:E; [| reflexivity].
    exfalso. clear IH Hb.
    do 6 (destruct b as [| ? b];
          [cbn in E; rewrite ?andb_false_r in E; discriminate |]).
    cbn in E, Hc. congruence. }
  rewrite Hn. now rewrite (IH Hb).
Qed.

Section Download.

Variable requestUrl : Transport.
Variable this : MemosService.

(** C8. Whatever the resource and whatever the transport does, the
    download returns and does not throw; it issues one request at most;
    and it returns bytes exactly when the transport answered that request
    with status 200 and an [arrayBuffer], which it returns as it is. A
    rejected request, another status, a response without [arrayBuffer], and
    a file name that cannot be encoded all give [null]. *)
Theorem downloadResource_never_throws resource :
  exists v tr,
    downloadResource requestUrl this resource [] = (Normal v, tr) /\
    (length tr <= 1)%nat /\
    (forall req o, In (req, o) tr -> o = requestUrl 0%nat req) /\
    (forall buf,
       v = Some buf <->
       exists req resp,
         tr = [(req, Resolved resp)] /\ status resp = 200 /\ arrayBuffer resp = Some buf).
Proof.
  unfold downloadResource, try_catch, bind, orThrow, await_requestUrl.
  destruct (encodeURIComponent (filename resource)) as [encoded |]; cbn -[replace].
  2: { exists None, []. split; [reflexivity |]. split; [simpl; lia |].
       split; [intros ? ? [] |].
       intros buf. split; [discriminate |].
       intros (req & resp & Htr & _). discriminate. }
  set (req := mkRequest _ _ _).
  assert (Hex : forall o, o = requestUrl 0%nat req ->
            forall req' o', In (req', o') [(req, o)] -> o' = requestUrl 0%nat req').
  { intros o -> req' o' [H | []]. now inversion H; subst. }
  destruct (requestUrl 0%nat req) as [resp | err] eqn:Ho; cbn -[replace].
  2: { exists None, [(req, Rejected err)]. split; [reflexivity |].
       split; [simpl; lia |]. split; [now apply Hex |].
       intros buf. split; [discriminate |].
       intros (req' & resp & Htr & _). discriminate. }
  destruct (status resp =? 200) eqn:Hs; cbn [negb].
  - apply Z.eqb_eq in Hs.
    destruct (arrayBuffer resp) as [buf |] eqn:Hb; cbn -[replace].
    + exists (Some buf), [(req, Resolved resp)]. split; [reflexivity |].
      split; [simpl; lia |]. split; [now apply Hex |].
      intros buf'. split.
      * intros H. inversion H; subst. now exists req, resp.
      * intros (req' & resp' & Htr & _ & Hb'). inversion Htr; subst. congruence.
    + exists None, [(req, Resolved resp)]. split; [reflexivity |].
      split; [simpl; lia |]. split; [now apply Hex |].
      intros buf'. split; [discriminate |].
      intros (req' & resp' & Htr & _ & Hb'). inversion Htr; subst. congruence.
  - apply Z.eqb_neq in Hs. cbn -[replace].
    exists None, [(req, Resolved resp)]. split; [reflexivity |].
    split; [simpl; lia |]. split; [now apply Hex |].
    intros buf'. split; [discriminate |].
    intros (req' & resp' & Htr & Hs' & _). inversion Htr; subst. contradiction.
Qed.

(** C9, as the code has it. For a file name that can be encoded, the
    download requests one URL: the API URL with its first [/api/v1] taken
    out, then [/file/attachments/], the attachment id, a slash and the
    encoded file name. Taking out the first [/api/v1] strips the ending of
    an API URL that ends with it and holds it nowhere before. The
    attachment id is what follows the last slash of the name when that is
    not empty; for a name that ends with a slash, and for a name without a
    slash, it is the whole name. The id of [attachments/sub/77] is [77]. *)
Theorem downloadResource_url resource encoded :
  encodeURIComponent (filename resource) = Some encoded ->
  map (fun e => url (fst e)) (snd (downloadResource requestUrl this resource []))
  = [replace "/api/v1" "" (apiUrl this) ++ "/file/attachments/"
       ++ attachmentIdOf (name resource) ++ "/" ++ encoded] /\
  (forall base,
     apiUrl this = base ++ "/api/v1" -> includes "/api/v1" base = false ->
     replace "/api/v1" "" (apiUrl this) = base) /\
  (forall pre c seg,
     name resource = pre ++ "/" ++ String c seg ->
     includes "/" (String c seg) = false ->
     attachmentIdOf (name resource) = String c seg) /\
  (forall pre, name resource = pre ++ "/" ->
     attachmentIdOf (name resource) = name resource) /\
  (includes "/" (name resource) = false ->
     attachmentIdOf (name resource) = name resource) /\
  attachmentIdOf "attachments/sub/77" = "77".
Proof.
  intros Henc. split; [| split; [| split; [| split; [| split]]]].
  - unfold downloadResource, try_catch, bind, orThrow, await_requestUrl.
    rewrite Henc. cbn -[replace attachmentIdOf].
    destruct (requestUrl 0%nat _) as [resp | err]; cbn -[replace attachmentIdOf].
    + destruct (negb (status resp =? 200)); [reflexivity |].
      destruct (arrayBuffer resp); reflexivity.
    + reflexivity.
  - intros base -> Hb. now apply replace_suffix.
  - intros pre c seg -> Hs. unfold attachmentIdOf. now rewrite pop_split_last.
  - intros pre E. unfold attachmentIdOf. rewrite E at 1.
    change (pre ++ "/") with (pre ++ "/" ++ ""). now rewrite pop_split_last.
  - intros H. unfold attachmentIdOf. rewrite split_without_separator by exact H.
    now destruct (name resource).
  - reflexivity.
Qed.

End Download.

Lemma downloadResource_url_witness :
  encodeURIComponent (filename (mkResource "attachments/sub/77" "photo 1.png" None))
  = Some "photo%201.png" /\
  map (fun e => url (fst e))
    (snd (downloadResource twoPages (svc 3)
            (mkResource "attachments/sub/77" "photo 1.png" None) []))
  = ["https://memos.example/file/attachments/77/photo%201.png"].
Proof.
  assert (Henc : encodeURIComponent
                   (filename (mkResource "attachments/sub/77" "photo 1.png" None))
                 = Some "photo%201.png") by reflexivity.
  split; [exact Henc |].
  exact (proj1 (downloadResource_url twoPages (svc 3)
                  (mkResource "attachments/sub/77" "photo 1.png" None) _ Henc)).
Defined.

(** C9, as it is stated, fails: the name [attachments/] ends with a slash,
    so its last piece is empty, and the download takes the whole name as
    the attachment id. *)
Lemma attachmentId_of_trailing_slash :
  pop (split "/" "attachments/") = Some "" /\
  map (fun e => url (fst e))
    (snd (downloadResource twoPages (svc 3)
            (mkResource "attachments/" "photo.png" None) []))
  = ["https://memos.example/file/attachments/attachments//photo.png"] /\
  "https://memos.example/file/attachments/attachments//photo.png"
  <> "https://memos.example" ++ "/file/attachments/" ++ "" ++ "/" ++ "photo.png".
Proof.
  split; [reflexivity |]. split; [vm_compute; reflexivity |].
  vm_compute. discriminate.
Qed.

End DownloadResource.

(** ** More about the paged fetch *)

Module FetchMore.
Import JS Effects MemosService Trace Pages.
Import PlatformFacts LoopFacts RunFacts SortFacts FetchAllMemos.

Lemma firstn_firstn_app {A} (n : nat) (a b : list A) :
  firstn n (firstn n a ++ b)%list = firstn n (a ++ b)%list.
Proof.
  destruct (Nat.le_gt_cases (length a) n) as [H | H].
  - now rewrite (firstn_all2 a) by exact H.
  - rewrite !firstn_app, firstn_firstn, Nat.min_id.
    rewrite length_firstn, Nat.min_l by lia.
    replace (n - n)%nat with 0%nat by lia.
    replace (n - length a)%nat with 0%nat by lia.
    reflexivity.
Qed.

Lemma truthy_inv next :
  truthy next = true -> exists t, next = Some t /\ t <> EmptyString.
Proof.
  destruct next as [[| c t] |]; try discriminate.
  intros _. exists (String c t). split; [reflexivity | discriminate].
Qed.

(** The query carries a cursor that is not empty, made a [USVString]. *)
Lemma pageParams_pageToken pageSize t :
  truthy (Some t) = true ->
  URLSearchParams_get "pageToken" (pageParams pageSize (Some t))
  = Some (toUSVString t).
Proof. unfold pageParams. intros ->. reflexivity. Qed.

Lemma pageParams_no_pageToken pageSize next :
  truthy next = false ->
  URLSearchParams_get "pageToken" (pageParams pageSize next) = None.
Proof.
  unfold pageParams. intros H. destruct next as [t |]; [rewrite H |]; reflexivity.
Qed.

Section More.

Variable Date_getTime : string -> option Z.
Variable requestUrl : Transport.
Variable this : MemosService.

Local Abbreviation cmp := (byCreateTimeDesc Date_getTime).
Local Abbreviation size := (Z.min 100 (syncLimit this)).

(** The requests of the loop are chained by the cursor. *)
Lemma fetchLoop_chain pageSize fuel : forall acc tok tr r tr',
  fetchLoop requestUrl this fuel pageSize acc tok tr = (r, tr') ->
  exists news,
    tr' = (tr ++ news)%list /\
    (forall e rest, news = e :: rest -> fst e = pageRequest this pageSize tok) /\
    (forall pre e1 e2 post, news = (pre ++ e1 :: e2 :: post)%list ->
       exists memos next,
         pageOf e1 = Some (memos, next) /\ fst e2 = pageRequest this pageSize next).
Proof.
  induction fuel as [| fuel IH]; intros acc tok tr r tr' H.
  - inversion H; subst. exists []. split; [now rewrite app_nil_r |].
    split; [discriminate | intros [| ? ?]; discriminate].
  - cbn [fetchLoop] in H. unfold bind, await_requestUrl in H.
    set (req := pageRequest this pageSize tok) in *.
    assert (Hone : forall o c, (c, (tr ++ [(req, o)])%list) = (r, tr') ->
              exists news,
                tr' = (tr ++ news)%list /\
                (forall e rest, news = e :: rest -> fst e = req) /\
                (forall pre e1 e2 post, news = (pre ++ e1 :: e2 :: post)%list ->
                   exists memos next,
                     pageOf e1 = Some (memos, next) /\
                     fst e2 = pageRequest this pageSize next)).
    { intros o c Hc. inversion Hc; subst. exists [(req, o)].
      split; [reflexivity |]. split.
      - intros e rest He. now inversion He.
      - intros [| ? [| ? ?]] e1 e2 post He; discriminate. }
    destruct (requestUrl (length tr) req) as [resp | err] eqn:Ho;
      [| now apply Hone in H].
    destruct (status resp =? 200) eqn:Hs; cbn [negb] in H; [| now apply Hone in H].
    destruct (json resp) as [| [memos |] next] eqn:Hj; try (now apply Hone in H).
    destruct (len memos =? 0); [now apply Hone in H |].
    destruct ((len (pushNeeded this acc memos) >=? syncLimit this)
              || negb (truthy next)); [now apply Hone in H |].
    apply IH in H as (news & -> & Hfirst & Hnext).
    exists ((req, Resolved resp) :: news).
    split; [now rewrite <- app_assoc |]. split.
    + intros e rest He. now inversion He.
    + intros [| p pre] e1 e2 post He; cbn [app] in He; inversion He; subst.
      * exists memos, next. split.
        -- unfold pageOf. cbn [snd]. now rewrite Hs, Hj.
        -- now apply (Hfirst e2 post).
      * now apply (Hnext pre e1 e2 post).
Qed.

(** A run that returned ended on a page, and that page did not continue
    the loop. *)
Lemma run_normal_last fuel l tr :
  fetchAllMemos Date_getTime requestUrl this fuel [] = (Normal l, tr) ->
  exists pre last memos next,
    tr = (pre ++ [last])%list /\ pageOf last = Some (memos, next) /\
    continues this (replay this [] pre) last = false.
Proof.
  intros Hrun. rewrite fetchAllMemos_unfold in Hrun.
  destruct (includes "/api/v1" (apiUrl this)); [| discriminate].
  destruct (fetchLoop requestUrl this fuel size [] None []) as [r0 tr0] eqn:E.
  cbn [fst snd] in Hrun. inversion Hrun as [[Hc Ht]]. subst tr0.
  apply fetchLoop_shape in E as (mids & _ & Hend). cbn [app] in Hend.
  destruct Hend as [(-> & _) | (last & -> & Hstop & ->)]; [discriminate |].
  exists mids, last. unfold finish, conclude in Hc.
  destruct (pageOf last) as [[memos next] |] eqn:Hp; [now exists memos, next |].
  exfalso. unfold pageOf in Hp.
  destruct (snd last) as [resp | err].
  - destruct (status resp =? 200); [| discriminate].
    destruct (json resp) as [| [memos |] next]; discriminate.
  - destruct (instanceofTypeError err && String.eqb (message err) "Failed to fetch");
      discriminate.
Qed.

(** Under a limit that is not negative, the accumulator is the start of
    the memos fetched, up to the limit. *)
Lemma replay_firstn es : forall acc,
  0 <= syncLimit this -> len acc <= syncLimit this ->
  replay this acc es
  = firstn (Z.to_nat (syncLimit this)) (acc ++ fetchedMemos es)%list.
Proof.
  induction es as [| e es IH]; intros acc H0 Hacc.
  - cbn. rewrite app_nil_r. symmetry. apply firstn_all2. unfold len in Hacc. lia.
  - change (replay this acc (e :: es)) with (replay this (absorb this acc e) es).
    rewrite IH by (assumption || now apply absorb_bounded).
    unfold absorb, fetchedMemos. cbn [flat_map].
    destruct (pageOf e) as [[memos next] |]; [| reflexivity].
    rewrite pushNeeded_truncates by assumption.
    replace (acc ++ firstn (Z.to_nat (syncLimit this - len acc)) memos)%list
      with (firstn (Z.to_nat (syncLimit this)) (acc ++ memos)%list).
    + now rewrite firstn_firstn_app, <- app_assoc.
    + rewrite firstn_app, (firstn_all2 acc) by (unfold len in Hacc; lia).
      do 2 f_equal. unfold len. lia.
Qed.

(** X1. A 200 response whose body is falsy, or whose [memos] is not an
    array, ends the call: its exchange is the last one and the call throws
    the error about the format of the response. *)
Theorem fetchAllMemos_fails_on_malformed_body fuel r tr pre req resp post :
  fetchAllMemos Date_getTime requestUrl this fuel [] = (r, tr) ->
  tr = (pre ++ (req, Resolved resp) :: post)%list ->
  status resp = 200 ->
  (forall memos next, json resp <> Data (Some memos) next) ->
  post = [] /\
  r = Throw (Error "响应格式无效: 返回数据不包含 memos 数组").
Proof.
  intros Hrun Htr Hs Hj. apply Z.eqb_eq in Hs.
  assert (Hp : pageOf (req, Resolved resp) = None).
  { unfold pageOf. cbn [snd]. rewrite Hs.
    destruct (json resp) as [| [memos |] next]; try reflexivity.
    now contradiction (Hj memos next). }
  destruct (run_position _ _ _ _ _ _ _ _ _ Hrun Htr) as [_ [Hc | (-> & _ & ->)]].
  - unfold continues in Hc. rewrite Hp in Hc. discriminate.
  - split; [reflexivity |]. unfold finish. cbn [snd]. rewrite Hs.
    destruct (json resp) as [| [memos |] next]; try reflexivity.
    now contradiction (Hj memos next).
Qed.

(** X2. When the transport rejects a request with the [TypeError] "Failed
    to fetch", the call ends there and throws a new error whose message
    names the API URL. *)
Theorem fetchAllMemos_rewraps_unreachable fuel r tr pre req err post :
  fetchAllMemos Date_getTime requestUrl this fuel [] = (r, tr) ->
  tr = (pre ++ (req, Rejected err) :: post)%list ->
  errClass err = TypeError_ ->
  message err = "Failed to fetch" ->
  post = [] /\
  r = Throw (Error ("网络错误: 无法连接到 " ++ apiUrl this
                    ++ "。请检查 URL 是否正确且可访问。")).
Proof.
  intros Hrun Htr Hc Hm.
  destruct (run_position _ _ _ _ _ _ _ _ _ Hrun Htr) as [_ [Hk | (-> & _ & ->)]].
  - unfold continues, pageOf in Hk. discriminate.
  - split; [reflexivity |]. unfold finish, conclude, instanceofTypeError. cbn [snd].
    now rewrite Hc, Hm.
Qed.

(** X3. Any other rejection of the transport ends the call too, and is
    thrown on as it is. *)
Theorem fetchAllMemos_propagates_rejection fuel r tr pre req err post :
  fetchAllMemos Date_getTime requestUrl this fuel [] = (r, tr) ->
  tr = (pre ++ (req, Rejected err) :: post)%list ->
  errClass err <> TypeError_ \/ message err <> "Failed to fetch" ->
  post = [] /\ r = Throw err.
Proof.
  intros Hrun Htr Hne.
  destruct (run_position _ _ _ _ _ _ _ _ _ Hrun Htr) as [_ [Hk | (-> & _ & ->)]].
  - unfold continues, pageOf in Hk. discriminate.
  - split; [reflexivity |]. unfold finish, conclude, instanceofTypeError. cbn [snd].
    destruct Hne as [Hc | Hm].
    + destruct (errClass err); try reflexivity. now contradiction Hc.
    + apply String.eqb_neq in Hm. rewrite Hm. now rewrite andb_false_r.
Qed.

(** X4. The cursor is threaded through the requests: the first request has
    no [pageToken], and every later request carries, as [pageToken], the
    [nextPageToken] of the page before it, which is not empty. *)
Theorem fetchAllMemos_follows_cursor fuel r tr :
  fetchAllMemos Date_getTime requestUrl this fuel [] = (r, tr) ->
  (forall e rest, tr = e :: rest ->
     fst e = pageRequest this size None /\
     URLSearchParams_get "pageToken" (pageParams size None) = None) /\
  (forall pre e1 e2 post, tr = (pre ++ e1 :: e2 :: post)%list ->
     exists memos t,
       pageOf e1 = Some (memos, Some t) /\ t <> EmptyString /\
       fst e2 = pageRequest this size (Some t) /\
       URLSearchParams_get "pageToken" (pageParams size (Some t))
       = Some (toUSVString t)).
Proof.
  intros Hrun. pose proof Hrun as Hrun'. rewrite fetchAllMemos_unfold in Hrun.
  destruct (includes "/api/v1" (apiUrl this)).
  2: { inversion Hrun; subst. split; [discriminate |].
       intros [| ? ?] e1 e2 post H; discriminate. }
  destruct (fetchLoop requestUrl this fuel size [] None []) as [r0 tr0] eqn:E.
  cbn [fst snd] in Hrun. inversion Hrun; subst r tr0. clear Hrun.
  apply fetchLoop_chain in E as (news & -> & Hfirst & Hnext). cbn [app] in *.
  split.
  - intros e rest He. split; [now apply (Hfirst e rest) | reflexivity].
  - intros pre e1 e2 post He.
    destruct (Hnext pre e1 e2 post He) as (memos & next & Hp & Hreq).
    destruct (run_position _ _ _ _ _ _ _ _ _ Hrun' He) as [_ [Hc | (Hnil & _)]];
      [| discriminate].
    apply continues_inv in Hc as (memos' & next' & Hp' & _ & Ht & _).
    rewrite Hp in Hp'. inversion Hp'; subst memos' next'.
    destruct (truthy_inv _ Ht) as (t & -> & Hne).
    exists memos, t. repeat split; try assumption.
    now apply pageParams_pageToken.
Qed.

(** X5. Every request of a call is sent to [apiUrl/memos] with the bearer
    token in [Authorization], [Accept: application/json], no method, and
    [state=NORMAL] in its query. *)
Theorem fetchAllMemos_request_headers fuel r tr e :
  fetchAllMemos Date_getTime requestUrl this fuel [] = (r, tr) ->
  In e tr ->
  headers (fst e) = [("Authorization", "Bearer " ++ accessToken this);
                     ("Accept", "application/json")] /\
  method (fst e) = None /\
  exists pageToken,
    url (fst e) = (apiUrl this ++ "/memos") ++ "?"
                  ++ URLSearchParams_toString (pageParams size pageToken) /\
    URLSearchParams_get "state" (pageParams size pageToken) = Some "NORMAL".
Proof.
  intros Hrun Hin. rewrite fetchAllMemos_unfold in Hrun.
  destruct (includes "/api/v1" (apiUrl this)).
  2: { inversion Hrun; subst. contradiction. }
  destruct (fetchLoop requestUrl this fuel size [] None []) as [r0 tr0] eqn:E.
  cbn [fst snd] in Hrun. inversion Hrun; subst r tr0. clear Hrun.
  apply fetchLoop_exchanges in E as (news & -> & Hnews). cbn [app] in Hin.
  apply In_nth_error in Hin as [i Hi].
  destruct (Hnews i e Hi) as [[t Ht] _]. rewrite Ht.
  split; [reflexivity |]. split; [reflexivity |].
  exists t. split; [reflexivity |].
  unfold pageParams. destruct t as [t |]; [destruct (truthy (Some t)) |]; reflexivity.
Qed.

(** X6. Under a limit that is not negative, a call that returns returns
    the first [syncLimit] memos of the pages it fetched, taken in the order
    of arrival: these memos in some order, and, when the time of each of
    them is parseable, in the order of the final sort. *)
Theorem fetchAllMemos_returns_first_memos fuel l tr :
  0 <= syncLimit this ->
  fetchAllMemos Date_getTime requestUrl this fuel [] = (Normal l, tr) ->
  Permutation l (firstn (Z.to_nat (syncLimit this)) (fetchedMemos tr)) /\
  ((forall m, In m l -> parseable Date_getTime m) ->
   l = sort cmp (firstn (Z.to_nat (syncLimit this)) (fetchedMemos tr))).
Proof.
  intros H0 Hrun. rewrite (run_normal _ _ _ _ _ _ Hrun).
  rewrite replay_firstn; [| exact H0 | exact H0].
  split; [apply sort_perm | reflexivity].
Qed.

(** X7. A call returns fewer memos than [syncLimit] only when the server
    said it had no more: the last page was empty, or came without a
    cursor. *)
Theorem fetchAllMemos_short_only_at_end fuel l tr :
  fetchAllMemos Date_getTime requestUrl this fuel [] = (Normal l, tr) ->
  len l < syncLimit this ->
  exists pre last memos next,
    tr = (pre ++ [last])%list /\ pageOf last = Some (memos, next) /\
    (memos = [] \/ truthy next = false).
Proof.
  intros Hrun Hlt.
  destruct (run_normal_last _ _ _ Hrun) as (pre & last & memos & next & -> & Hp & Hstop).
  exists pre, last, memos, next. split; [reflexivity |]. split; [exact Hp |].
  rewrite (run_normal _ _ _ _ _ _ Hrun), sort_length, replay_snoc in Hlt.
  unfold continues in Hstop. unfold absorb in Hlt. rewrite Hp in Hstop, Hlt.
  destruct (len memos =? 0) eqn:Hl.
  - left. now apply len_zero_nil, Z.eqb_eq.
  - right. cbn [negb andb] in Hstop. apply negb_false_iff in Hstop.
    apply orb_prop in Hstop as [Hfull | Ht].
    + destruct (Z.geb_spec (len (pushNeeded this (replay this [] pre) memos))
                  (syncLimit this)); [lia | discriminate].
    + now apply negb_true_iff in Ht.
Qed.

Lemma continues_nonpositive acc e :
  syncLimit this <= 0 -> continues this acc e = false.
Proof.
  intros H. unfold continues. destruct (pageOf e) as [[memos next] |]; [| reflexivity].
  pose proof (len_nonneg (pushNeeded this acc memos)) as Hn.
  destruct (Z.geb_spec (len (pushNeeded this acc memos)) (syncLimit this)); [| lia].
  now rewrite andb_false_r.
Qed.


(** X9. With a negative limit a call that returns has made one request and
    returns the memos of that page without its last [-syncLimit] ones, in
    some order, and in the order of the final sort when the time of each is
    parseable: the limit does not bound the result. *)
Theorem fetchAllMemos_negative_limit fuel l tr :
  syncLimit this < 0 ->
  fetchAllMemos Date_getTime requestUrl this fuel [] = (Normal l, tr) ->
  exists e memos next,
    tr = [e] /\ pageOf e = Some (memos, next) /\
    Permutation l (firstn (Z.to_nat (len memos + syncLimit this)) memos) /\
    ((forall m, In m l -> parseable Date_getTime m) ->
     l = sort cmp (firstn (Z.to_nat (len memos + syncLimit this)) memos)).
Proof.
  intros Hneg Hrun.
  destruct (run_normal_last _ _ _ Hrun) as (pre & last & memos & next & -> & Hp & _).
  assert (Hpre : pre = []).
  { destruct pre as [| p pre]; [reflexivity |].
    destruct (run_position _ _ _ _ _ _ [] p (pre ++ [last])%list Hrun eq_refl)
      as [_ [Hc | (Hnil & _)]].
    - rewrite continues_nonpositive in Hc by lia. discriminate.
    - now destruct pre. }
  subst pre. exists last, memos, next. split; [reflexivity |]. split; [exact Hp |].
  assert (Hl : l = sort cmp (firstn (Z.to_nat (len memos + syncLimit this)) memos)).
  { rewrite (run_normal _ _ _ _ _ _ Hrun). f_equal.
    cbn [app replay fold_left]. unfold absorb. rewrite Hp.
    unfold pushNeeded, Math_min, slice, relIndex. cbn [app].
    pose proof (len_nonneg memos) as Hm.
    replace (len (@nil MemoItem)) with 0 by reflexivity.
    rewrite Z.sub_0_r, (Z.min_r (len memos)) by lia.
    replace (0 <? 0) with false by reflexivity.
    destruct (Z.ltb_spec (syncLimit this) 0); [| lia].
    rewrite (Z.min_l 0) by lia. cbn [Z.to_nat skipn]. rewrite Nat.sub_0_r.
    f_equal. lia. }
  split; [rewrite Hl; apply sort_perm | intros _; exact Hl].
Qed.

End More.

Import Samples MoreSamples.

Lemma run_malformedSecond :
  fetchAllMemos isoTime malformedSecond (svc 3) 3 []
  = (Throw (Error "响应格式无效: 返回数据不包含 memos 数组"),
     [firstOfTwo] ++ (ask 3 (Some "t1"), Resolved noMemosArray) :: [])%list.
Proof. vm_compute. reflexivity. Defined.

Lemma fetchAllMemos_fails_on_malformed_body_witness :
  status noMemosArray = 200 /\
  (forall memos next, json noMemosArray <> Data (Some memos) next) /\
  @nil Exchange = [] /\
  Throw (A := list MemoItem) (Error "响应格式无效: 返回数据不包含 memos 数组")
  = Throw (Error "响应格式无效: 返回数据不包含 memos 数组").
Proof.
  assert (Hj : forall memos next, json noMemosArray <> Data (Some memos) next)
    by discriminate.
  split; [reflexivity |]. split; [exact Hj |].
  exact (fetchAllMemos_fails_on_malformed_body isoTime malformedSecond (svc 3) 3 _ _
           [firstOfTwo] (ask 3 (Some "t1")) noMemosArray []
           run_malformedSecond eq_refl eq_refl Hj).
Defined.

Lemma run_goneAfterFirst :
  fetchAllMemos isoTime goneAfterFirst (svc 3) 3 []
  = (Throw (Error ("网络错误: 无法连接到 " ++ apiUrl (svc 3)
                   ++ "。请检查 URL 是否正确且可访问。")),
     [firstOfTwo]
       ++ (ask 3 (Some "t1"), Rejected (mkThrown TypeError_ "Failed to fetch")) :: [])%list.
Proof. vm_compute. reflexivity. Defined.

Lemma fetchAllMemos_rewraps_unreachable_witness :
  @nil Exchange = [] /\
  Throw (A := list MemoItem)
    (Error ("网络错误: 无法连接到 " ++ apiUrl (svc 3)
            ++ "。请检查 URL 是否正确且可访问。"))
  = Throw (Error ("网络错误: 无法连接到 " ++ "https://memos.example/api/v1"
                  ++ "。请检查 URL 是否正确且可访问。")).
Proof.
  exact (fetchAllMemos_rewraps_unreachable isoTime goneAfterFirst (svc 3) 3 _ _
           [firstOfTwo] (ask 3 (Some "t1")) (mkThrown TypeError_ "Failed to fetch") []
           run_goneAfterFirst eq_refl eq_refl eq_refl).
Defined.

Lemma run_alwaysTimesOut :
  fetchAllMemos isoTime alwaysTimesOut (svc 3) 3 []
  = (Throw timedOut, [] ++ (ask 3 None, Rejected timedOut) :: [])%list.
Proof. vm_compute. reflexivity. Defined.

Lemma fetchAllMemos_propagates_rejection_witness :
  (errClass timedOut <> TypeError_ \/ message timedOut <> "Failed to fetch") /\
  @nil Exchange = [] /\ Throw (A := list MemoItem) timedOut = Throw timedOut.
Proof.
  assert (H : errClass timedOut <> TypeError_ \/ message timedOut <> "Failed to fetch")
    by (left; discriminate).
  split; [exact H |].
  exact (fetchAllMemos_propagates_rejection isoTime alwaysTimesOut (svc 3) 3 _ _
           [] (ask 3 None) timedOut [] run_alwaysTimesOut eq_refl H).
Defined.

Lemma fetchAllMemos_follows_cursor_witness :
  fst firstOfTwo = pageRequest (svc 3) (Z.min 100 3) None /\
  exists memos t,
    pageOf firstOfTwo = Some (memos, Some t) /\ t <> EmptyString /\
    fst secondOfTwo = pageRequest (svc 3) (Z.min 100 3) (Some t) /\
    URLSearchParams_get "pageToken" (pageParams (Z.min 100 3) (Some t))
    = Some (toUSVString t).
Proof.
  destruct (fetchAllMemos_follows_cursor isoTime twoPages (svc 3) 3 _ _ run_twoPages)
    as [Hfirst Hnext].
  split.
  - exact (proj1 (Hfirst firstOfTwo [secondOfTwo] eq_refl)).
  - exact (Hnext [] firstOfTwo secondOfTwo [] eq_refl).
Defined.

Lemma fetchAllMemos_request_headers_witness :
  In secondOfTwo [firstOfTwo; secondOfTwo] /\
  headers (fst secondOfTwo)
  = [("Authorization", "Bearer token"); ("Accept", "application/json")] /\
  method (fst secondOfTwo) = None.
Proof.
  assert (Hin : In secondOfTwo [firstOfTwo; secondOfTwo]) by (right; now left).
  destruct (fetchAllMemos_request_headers isoTime twoPages (svc 3) 3 _ _ secondOfTwo
              run_twoPages Hin) as (Hh & Hm & _).
  split; [exact Hin |]. split; [exact Hh | exact Hm].
Defined.

Lemma fetchAllMemos_returns_first_memos_witness :
  0 <= syncLimit (svc 3) /\
  (forall m, In m [m2; m1; m3] -> parseable isoTime m) /\
  Permutation [m2; m1; m3]
    (firstn (Z.to_nat (syncLimit (svc 3))) (fetchedMemos [firstOfTwo; secondOfTwo])) /\
  [m2; m1; m3]
  = sort (byCreateTimeDesc isoTime)
      (firstn (Z.to_nat (syncLimit (svc 3))) (fetchedMemos [firstOfTwo; secondOfTwo])).
Proof.
  assert (H0 : 0 <= syncLimit (svc 3)) by discriminate.
  assert (Hok : forall m, In m [m2; m1; m3] -> parseable isoTime m).
  { intros m [<- | [<- | [<- | []]]]; vm_compute; discriminate. }
  destruct (fetchAllMemos_returns_first_memos isoTime twoPages (svc 3) 3 _ _
              H0 run_twoPages) as [Hperm Hsort].
  split; [exact H0 |]. split; [exact Hok |]. split; [exact Hperm | exact (Hsort Hok)].
Defined.

Lemma run_shortPage :
  fetchAllMemos isoTime noCursor (svc 5) 5 [] = (Normal [m2; m1], [shortPage]).
Proof. vm_compute. reflexivity. Defined.

Lemma fetchAllMemos_short_only_at_end_witness :
  len [m2; m1] < syncLimit (svc 5) /\
  exists pre last memos next,
    [shortPage] = (pre ++ [last])%list /\ pageOf last = Some (memos, next) /\
    (memos = [] \/ truthy next = false).
Proof.
  assert (Hlt : len [m2; m1] < syncLimit (svc 5)) by reflexivity.
  split; [exact Hlt |].
  exact (fetchAllMemos_short_only_at_end isoTime noCursor (svc 5) 5 _ _
           run_shortPage Hlt).
Defined.



Lemma run_negativeLimit :
  fetchAllMemos isoTime twoPages (svc (-1)) 1 []
  = (Normal [m1], [(ask (-1) None, Resolved (page [m1; m2] (Some "t1")))]).
Proof. vm_compute. reflexivity. Defined.

Lemma fetchAllMemos_negative_limit_witness :
  syncLimit (svc (-1)) < 0 /\
  exists e memos next,
    [(ask (-1) None, Resolved (page [m1; m2] (Some "t1")))] = [e] /\
    pageOf e = Some (memos, next) /\
    Permutation [m1] (firstn (Z.to_nat (len memos + syncLimit (svc (-1)))) memos) /\
    ((forall m, In m [m1] -> parseable isoTime m) ->
     [m1] = sort (byCreateTimeDesc isoTime)
              (firstn (Z.to_nat (len memos + syncLimit (svc (-1)))) memos)).
Proof.
  assert (Hneg : syncLimit (svc (-1)) < 0) by reflexivity.
  split; [exact Hneg |].
  exact (fetchAllMemos_negative_limit isoTime twoPages (svc (-1)) 1 _ _
           Hneg run_negativeLimit).
Defined.

End FetchMore.

(** ** More about the attachment download *)

Module DownloadMore.
Import JS Effects MemosService Trace PlatformFacts Samples MoreSamples.

(** Without the pattern there is nothing to replace. *)
Lemma replace_absent pat rep s : includes pat s = false -> replace pat rep s = s.
Proof.
  induction s as [| c s IH]; cbn [includes replace].
  - now intros ->.
  - intros H. apply orb_false_elim in H as [-> Hs]. now rewrite (IH Hs).
Qed.

Lemma includes_char_app p a b :
  includes (String p EmptyString) (a ++ b)
  = includes (String p EmptyString) a || includes (String p EmptyString) b.
Proof.
  induction a as [| c a IH]; [reflexivity |].
  cbn [append includes]. rewrite IH.
  assert (Hs : forall t, startsWith (String p EmptyString) (String c t) = Ascii.eqb p c).
  { intros t. cbn [startsWith]. destruct t; apply andb_true_r. }
  rewrite !Hs. apply orb_assoc.
Qed.

(** What [encodeURIComponent] makes of one byte holds none of the marks
    that structure a URL. *)
Lemma escape_byte_safe p c :
  In p ["/"; "?"; "#"; "&"; "="; " "]%char ->
  includes (String p EmptyString)
    (if isAlnum c || oneOf "-_.!~*'()" c then String c EmptyString else percent c)
  = false.
Proof.
  intros Hp.
  repeat (destruct Hp as [<- | Hp]; [destruct c as [[] [] [] [] [] [] [] []];
                                     vm_compute; reflexivity |]).
  contradiction.
Qed.

Lemma escapeWith_safe p s :
  In p ["/"; "?"; "#"; "&"; "="; " "]%char ->
  includes (String p EmptyString)
    (escapeWith (fun c => isAlnum c || oneOf "-_.!~*'()" c) s) = false.
Proof.
  intros Hp. induction s as [| c s IH]; [reflexivity |].
  cbn [escapeWith]. rewrite includes_char_app, IH, orb_false_r.
  now apply escape_byte_safe.
Qed.

Lemma encodeURIComponent_safe p s encoded :
  In p ["/"; "?"; "#"; "&"; "="; " "]%char ->
  encodeURIComponent s = Some encoded ->
  includes (String p EmptyString) encoded = false.
Proof.
  intros Hp. unfold encodeURIComponent.
  destruct (hasLoneSurrogate s); [discriminate |].
  intros H. inversion H. now apply escapeWith_safe.
Qed.

Section More.

Variable requestUrl : Transport.
Variable this : MemosService.

(** X10. The download sends one [GET] request, with the bearer token in
    [Authorization] and [Accept: */*], and gets the answer of the transport
    to it; only a file name that cannot be encoded (it holds a lone
    surrogate) makes it return [null] without any request. *)
Theorem downloadResource_request resource :
  (encodeURIComponent (filename resource) = None ->
   downloadResource requestUrl this resource [] = (Normal None, [])) /\
  (encodeURIComponent (filename resource) <> None ->
   exists req,
     snd (downloadResource requestUrl this resource []) = [(req, requestUrl 0%nat req)] /\
     headers req = [("Authorization", "Bearer " ++ accessToken this); ("Accept", "*/*")] /\
     method req = Some "GET").
Proof.
  unfold downloadResource, try_catch, bind, orThrow, await_requestUrl.
  destruct (encodeURIComponent (filename resource)) as [encoded |];
    cbn -[replace attachmentIdOf].
  - split; [discriminate |]. intros _.
    set (req := mkRequest _ _ _). exists req.
    destruct (requestUrl 0%nat req) as [resp | err]; cbn -[replace attachmentIdOf].
    + destruct (negb (status resp =? 200)); [auto |].
      destruct (arrayBuffer resp); auto.
    + auto.
  - split; [reflexivity |]. intros H. now contradiction H.
Qed.

(** X11. The download does not check the API URL as the fetch does: when
    the URL does not contain [/api/v1], nothing is taken out of it and the
    request goes to that URL followed by the path of the file. *)
Theorem downloadResource_keeps_unversioned_url resource encoded :
  includes "/api/v1" (apiUrl this) = false ->
  encodeURIComponent (filename resource) = Some encoded ->
  map (fun e => url (fst e)) (snd (downloadResource requestUrl this resource []))
  = [apiUrl this ++ "/file/attachments/"
       ++ attachmentIdOf (name resource) ++ "/" ++ encoded].
Proof.
  intros Hno Henc.
  unfold downloadResource, try_catch, bind, orThrow, await_requestUrl.
  rewrite Henc. cbn -[replace attachmentIdOf].
  rewrite (replace_absent _ _ _ Hno).
  destruct (requestUrl 0%nat _) as [resp | err]; cbn -[attachmentIdOf].
  - destruct (negb (status resp =? 200)); [reflexivity |].
    destruct (arrayBuffer resp); reflexivity.
  - reflexivity.
Qed.

(** X12. The file name is one segment of the requested URL, whatever it
    holds: the URL ends with a slash and the encoded name, and the encoded
    name has no slash, question mark, hash, ampersand, equals sign or
    space. *)
Theorem downloadResource_filename_is_one_segment resource encoded p :
  encodeURIComponent (filename resource) = Some encoded ->
  In p ["/"; "?"; "#"; "&"; "="; " "]%char ->
  (exists front,
     map (fun e => url (fst e)) (snd (downloadResource requestUrl this resource []))
     = [front ++ "/" ++ encoded]) /\
  includes (String p EmptyString) encoded = false.
Proof.
  intros Henc Hp. split; [| now apply (encodeURIComponent_safe p (filename resource))].
  exists (replace "/api/v1" "" (apiUrl this) ++ "/file/attachments/"
          ++ attachmentIdOf (name resource)).
  assert (Hassoc : forall a b c d : string, (a ++ b ++ c) ++ d = a ++ b ++ c ++ d).
  { intros a b c d. induction a as [| x a IH]; cbn [append].
    - induction b as [| y b IHb]; cbn [append]; [reflexivity | now rewrite IHb].
    - now rewrite IH. }
  rewrite Hassoc.
  unfold downloadResource, try_catch, bind, orThrow, await_requestUrl.
  rewrite Henc. cbn -[replace attachmentIdOf].
  destruct (requestUrl 0%nat _) as [resp | err]; cbn -[replace attachmentIdOf].
  - destruct (negb (status resp =? 200)); [reflexivity |].
    destruct (arrayBuffer resp); reflexivity.
  - reflexivity.
Qed.

End More.

Lemma downloadResource_keeps_unversioned_url_witness :
  includes "/api/v1" (apiUrl (mkService "https://memos.example" "token" 3)) = false /\
  encodeURIComponent (filename photo) = Some "photo%201.png" /\
  map (fun e => url (fst e))
    (snd (downloadResource twoPages (mkService "https://memos.example" "token" 3)
            photo []))
  = ["https://memos.example/file/attachments/42/photo%201.png"].
Proof.
  assert (Hno : includes "/api/v1"
                  (apiUrl (mkService "https://memos.example" "token" 3)) = false)
    by reflexivity.
  assert (Henc : encodeURIComponent (filename photo) = Some "photo%201.png")
    by reflexivity.
  split; [exact Hno |]. split; [exact Henc |].
  exact (downloadResource_keeps_unversioned_url twoPages
           (mkService "https://memos.example" "token" 3) photo _ Hno Henc).
Defined.

Lemma downloadResource_filename_is_one_segment_witness :
  encodeURIComponent (filename (mkResource "attachments/42" "a/b?c#d.png" None))
  = Some "a%2Fb%3Fc%23d.png" /\
  In "/"%char ["/"; "?"; "#"; "&"; "="; " "]%char /\
  includes "/" "a%2Fb%3Fc%23d.png" = false.
Proof.
  assert (Henc : encodeURIComponent
                   (filename (mkResource "attachments/42" "a/b?c#d.png" None))
                 = Some "a%2Fb%3Fc%23d.png") by reflexivity.
  assert (Hin : In "/"%char ["/"; "?"; "#"; "&"; "="; " "]%char) by now left.
  split; [exact Henc |]. split; [exact Hin |].
  exact (proj2 (downloadResource_filename_is_one_segment twoPages (svc 3)
                  (mkResource "attachments/42" "a/b?c#d.png" None) _ "/"%char
                  Henc Hin)).
Defined.

End DownloadMore.

(** ** The settings of the plugin *)

Module PluginFacts.
Import Plugin MoreSamples.

Lemma getProp_absent k o : ~ In k (map fst o) -> getProp k o = None.
Proof.
  induction o as [| [k' v] o IH]; [reflexivity |].
  cbn [map fst In getProp]. intros H.
  destruct (String.eqb_spec k' k) as [-> | _]; [now contradiction H; left |].
  apply IH. intros Hin. apply H. now right.
Qed.

(** Reading a property after a write. *)
Lemma getProp_setProp k k' v o :
  getProp k (setProp k' v o) = if String.eqb k' k then Some v else getProp k o.
Proof.
  induction o as [| [k0 v0] o IH]; cbn [setProp getProp]; [reflexivity |].
  destruct (String.eqb_spec k0 k') as [-> | Hne]; cbn [getProp].
  - destruct (String.eqb k' k); reflexivity.
  - rewrite IH. destruct (String.eqb_spec k0 k) as [-> | _]; [| reflexivity].
    destruct (String.eqb_spec k' k) as [-> | _]; [now contradiction Hne | reflexivity].
Qed.

Lemma names_setProp k v o x :
  In x (map fst (setProp k v o)) <-> x = k \/ In x (map fst o).
Proof.
  induction o as [| [k0 v0] o IH]; cbn [setProp map fst In].
  - intuition.
  - destruct (String.eqb_spec k0 k) as [-> | Hne]; cbn [map fst In].
    + intuition.
    + rewrite IH. intuition.
Qed.

(** A write keeps the names of an object distinct. *)
Lemma distinct_setProp k v o : distinctNames o -> distinctNames (setProp k v o).
Proof.
  unfold distinctNames. induction o as [| [k0 v0] o IH]; cbn [setProp map fst].
  - intros _. repeat constructor. intros [].
  - intros H. inversion H as [| ? ? Hnot Hrest]; subst.
    destruct (String.eqb_spec k0 k) as [-> | Hne]; cbn [map fst].
    + now constructor.
    + constructor; [| now apply IH].
      rewrite names_setProp. intros [-> | Hin]; [now apply Hne | now apply Hnot].
Qed.

Lemma distinct_assignFrom target source :
  distinctNames target -> distinctNames (assignFrom target source).
Proof.
  destruct source as [props |]; cbn [assignFrom]; [| auto].
  revert target. induction props as [| [k v] props IH]; intros target H; [exact H |].
  cbn [fold_left fst snd]. apply IH. now apply distinct_setProp.
Qed.

(** Reading a property after the properties of a source were set: the
    source wins. *)
Lemma getProp_assignFrom k props : forall target,
  distinctNames props ->
  getProp k (assignFrom target (Some props))
  = match getProp k props with
    | Some v => Some v
    | None => getProp k target
    end.
Proof.
  unfold distinctNames, assignFrom.
  induction props as [| [k1 v1] props IH]; intros target H; [reflexivity |].
  cbn [map fst] in H. inversion H as [| ? ? Hnot Hrest]; subst.
  cbn [fold_left fst snd getProp]. rewrite (IH _ Hrest), getProp_setProp.
  destruct (String.eqb_spec k1 k) as [-> | _]; [| reflexivity].
  now rewrite (getProp_absent _ _ Hnot).
Qed.

Section Settings.

Variable DEFAULT_SETTINGS : JsObject.

(** Reading a setting after the defaults and the data were merged. *)
Lemma getProp_merged k loaded :
  distinctNames DEFAULT_SETTINGS ->
  (forall props, loaded = Some props -> distinctNames props) ->
  getProp k (Object_assign [] [Some DEFAULT_SETTINGS; loaded])
  = match loaded with
    | Some props =>
        match getProp k props with
        | Some v => Some v
        | None => getProp k DEFAULT_SETTINGS
        end
    | None => getProp k DEFAULT_SETTINGS
    end.
Proof.
  intros Hd Hl. unfold Object_assign. cbn [fold_left].
  destruct loaded as [props |].
  - rewrite getProp_assignFrom by now apply Hl.
    destruct (getProp k props); [reflexivity |].
    rewrite getProp_assignFrom by exact Hd.
    now destruct (getProp k DEFAULT_SETTINGS).
  - change (getProp k (assignFrom [] (Some DEFAULT_SETTINGS))
            = getProp k DEFAULT_SETTINGS).
    rewrite getProp_assignFrom by exact Hd.
    now destruct (getProp k DEFAULT_SETTINGS).
Qed.

Lemma merged_distinct loaded :
  distinctNames (Object_assign [] [Some DEFAULT_SETTINGS; loaded]).
Proof.
  unfold Object_assign. cbn [fold_left].
  apply distinct_assignFrom, distinct_assignFrom. constructor.
Qed.

(** X13. For defaults and data that have no property named [__proto__]
    (a name [Object.assign] would hand to the setter of the prototype and
    not make a property of): after [loadSettings] each setting has the
    value the host has for it, and the default when the host has none for
    it, or has no data at all. *)
Theorem loadSettings_overlays_defaults this :
  distinctNames DEFAULT_SETTINGS ->
  ~ In "__proto__" (map fst DEFAULT_SETTINGS) ->
  (forall loaded, data this = Some loaded ->
     distinctNames loaded /\ ~ In "__proto__" (map fst loaded)) ->
  exists s,
    settings (loadSettings DEFAULT_SETTINGS this) = Some s /\
    forall k,
      getProp k s
      = match data this with
        | Some loaded =>
            match getProp k loaded with
            | Some v => Some v
            | None => getProp k DEFAULT_SETTINGS
            end
        | None => getProp k DEFAULT_SETTINGS
        end.
Proof.
  intros Hd _ Hl. unfold loadSettings. cbn [settings].
  eexists. split; [reflexivity |]. intros k. apply getProp_merged; [exact Hd |].
  intros props Hp. now apply Hl.
Qed.

(** X14. Saving and loading loses no setting: what the plugin had under a
    name before [saveSettings], it has after the [loadSettings] that
    follows. *)
Theorem saveSettings_then_loadSettings_keeps this s :
  settings this = Some s ->
  distinctNames s ->
  exists s',
    settings (loadSettings DEFAULT_SETTINGS (saveSettings this)) = Some s' /\
    forall k v, getProp k s = Some v -> getProp k s' = Some v.
Proof.
  intros Hs Hd. eexists. split; [reflexivity |]. intros k v Hk.
  unfold Object_assign, saveSettings. cbn [fold_left data]. rewrite Hs.
  now rewrite getProp_assignFrom, Hk.
Qed.

(** X15. Loading is stable: after [loadSettings], a [saveSettings] and
    another [loadSettings] leave every setting as it is. *)
Theorem loadSettings_is_stable this :
  distinctNames DEFAULT_SETTINGS ->
  (forall loaded, data this = Some loaded -> distinctNames loaded) ->
  exists s s',
    settings (loadSettings DEFAULT_SETTINGS this) = Some s /\
    settings (loadSettings DEFAULT_SETTINGS
                (saveSettings (loadSettings DEFAULT_SETTINGS this))) = Some s' /\
    forall k, getProp k s' = getProp k s.
Proof.
  intros Hd Hl.
  unfold loadSettings, saveSettings. cbn [settings data].
  eexists. eexists. split; [reflexivity |]. split; [reflexivity |]. intros k.
  rewrite (getProp_merged k (Some _))
    by (assumption || (intros ? [= <-]; apply merged_distinct)).
  destruct (getProp k (Object_assign [] [Some DEFAULT_SETTINGS; data this])) eqn:Hk;
    [reflexivity |].
  rewrite getProp_merged in Hk by assumption.
  destruct (data this) as [loaded |]; [| exact Hk].
  destruct (getProp k loaded); [discriminate | exact Hk].
Qed.

End Settings.

Ltac distinct_names :=
  unfold distinctNames; cbn [map fst];
  repeat (constructor; [cbn [In]; intuition discriminate |]); constructor.

Lemma defaults_distinct : distinctNames defaults.
Proof. unfold defaults. distinct_names. Defined.

Lemma saved_distinct :
  forall loaded, data (mkPlugin None (Some saved)) = Some loaded -> distinctNames loaded.
Proof. intros loaded [= <-]. unfold saved. distinct_names. Defined.

Lemma loadSettings_overlays_defaults_witness :
  ~ In "__proto__" (map fst defaults) /\
  ~ In "__proto__" (map fst saved) /\
  exists s,
    settings (loadSettings defaults (mkPlugin None (Some saved))) = Some s /\
    getProp "syncLimit" s = Some (VNumber 50) /\
    getProp "accessToken" s = Some (VString "").
Proof.
  assert (Hpd : ~ In "__proto__" (map fst defaults))
    by (cbn [defaults map fst In]; intuition discriminate).
  assert (Hps : ~ In "__proto__" (map fst saved))
    by (cbn [saved map fst In]; intuition discriminate).
  assert (Hl : forall loaded, data (mkPlugin None (Some saved)) = Some loaded ->
            distinctNames loaded /\ ~ In "__proto__" (map fst loaded)).
  { intros loaded [= <-]. split; [| exact Hps]. unfold saved. distinct_names. }
  destruct (loadSettings_overlays_defaults defaults (mkPlugin None (Some saved))
              defaults_distinct Hpd Hl) as (s & Hs & Hget).
  split; [exact Hpd |]. split; [exact Hps |].
  exists s. split; [exact Hs |].
  split; [exact (Hget "syncLimit") | exact (Hget "accessToken")].
Defined.

Lemma saveSettings_then_loadSettings_keeps_witness :
  exists s',
    settings (loadSettings defaults (saveSettings (mkPlugin (Some saved) None)))
    = Some s' /\
    getProp "syncLimit" s' = Some (VNumber 50).
Proof.
  assert (Hd : distinctNames saved) by (unfold saved; distinct_names).
  destruct (saveSettings_then_loadSettings_keeps defaults (mkPlugin (Some saved) None)
              saved eq_refl Hd) as (s' & Hs & Hkeep).
  exists s'. split; [exact Hs |]. now apply Hkeep.
Defined.

Lemma loadSettings_is_stable_witness :
  exists s s',
    settings (loadSettings defaults (mkPlugin None (Some saved))) = Some s /\
    settings (loadSettings defaults
                (saveSettings (loadSettings defaults (mkPlugin None (Some saved)))))
    = Some s' /\
    getProp "apiUrl" s' = getProp "apiUrl" s.
Proof.
  destruct (loadSettings_is_stable defaults (mkPlugin None (Some saved))
              defaults_distinct saved_distinct) as (s & s' & Hs & Hs' & Hsame).
  exists s, s'. split; [exact Hs |]. split; [exact Hs' | exact (Hsame "apiUrl")].
Defined.

End PluginFacts.

(** ** The limit as a number *)

Module AnyLimitFacts.
Import JS Effects MemosService Trace Samples AnyLimit.
Import QArith_base.
Local Open Scope Z_scope.

Lemma Math_minQ_integer a b :
  Math_minQ (inject_Z a) (inject_Z b) = inject_Z (Z.min a b).
Proof.
  unfold Math_minQ, Qle_bool. cbn [Qnum Qden inject_Z]. rewrite !Z.mul_1_r.
  destruct (Z.leb_spec a b); [now rewrite Z.min_l by lia | now rewrite Z.min_r by lia].
Qed.

Lemma Qminus_integer a b : Qminus (inject_Z a) (inject_Z b) = inject_Z (a - b).
Proof.
  unfold Qminus, Qplus, Qopp, inject_Z. cbn [Qnum Qden Pos.mul]. f_equal. lia.
Qed.

Lemma toInteger_integer z : toInteger (inject_Z z) = z.
Proof. unfold toInteger. cbn [Qnum Qden inject_Z]. apply Z.quot_1_r. Qed.

Lemma reached_integer limit n :
  Qle_bool (inject_Z limit) (inject_Z n) = (n >=? limit).
Proof.
  unfold Qle_bool. cbn [Qnum Qden inject_Z]. rewrite !Z.mul_1_r.
  symmetry. apply Z.geb_leb.
Qed.

Section Integer.

Variable Date_getTime : string -> option Z.
Variable requestUrl : Transport.
Variable this : MemosService.

Local Abbreviation limit := (inject_Z (syncLimit this)).

Lemma pushNeededQ_integer acc memos :
  pushNeededQ limit acc memos = pushNeeded this acc memos.
Proof.
  unfold pushNeededQ, pushNeeded, Math_min.
  now rewrite Qminus_integer, Math_minQ_integer, toInteger_integer.
Qed.

(** At a whole limit the loop is the loop of the service. *)
Lemma fetchLoopQ_integer pageSize fuel : forall acc tok tr,
  fetchLoopQ requestUrl (apiUrl this) (accessToken this) limit
    fuel (inject_Z pageSize) acc tok tr
  = fetchLoop requestUrl this fuel pageSize acc tok tr.
Proof.
  induction fuel as [| fuel IH]; intros acc tok tr; [reflexivity |].
  cbn [fetchLoopQ fetchLoop]. unfold bind.
  change (pageRequestQ (apiUrl this) (accessToken this) (inject_Z pageSize) tok)
    with (pageRequest this pageSize tok).
  destruct (await_requestUrl requestUrl (pageRequest this pageSize tok) tr)
    as [[resp | err |] tr']; try reflexivity.
  destruct (negb (status resp =? 200)); [reflexivity |].
  destruct (json resp) as [| [memos |] next]; try reflexivity.
  destruct (len memos =? 0); [reflexivity |].
  rewrite pushNeededQ_integer, reached_integer.
  destruct ((len (pushNeeded this acc memos) >=? syncLimit this)
            || negb (truthy next)); [reflexivity | apply IH].
Qed.

(** At a whole limit [fetchAllMemos] under any number is [fetchAllMemos]
    of the service. *)
Lemma fetchAllMemosQ_integer fuel tr :
  fetchAllMemosQ Date_getTime requestUrl (apiUrl this) (accessToken this) limit fuel tr
  = fetchAllMemos Date_getTime requestUrl this fuel tr.
Proof.
  unfold fetchAllMemosQ, fetchAllMemos, try_catch, bind, Math_min.
  destruct (negb (includes "/api/v1" (apiUrl this))); [reflexivity |].
  now rewrite Math_minQ_integer, fetchLoopQ_integer.
Qed.

End Integer.

Section Step.

Variable requestUrl : Transport.
Variable apiUrl accessToken : string.
Variable limit : Q.

(** One iteration that goes on to the next. *)
Lemma fetchLoopQ_continue fuel pageSize acc tok tr resp memos next :
  requestUrl (length tr) (pageRequestQ apiUrl accessToken pageSize tok) = Resolved resp ->
  status resp = 200 ->
  json resp = Data (Some memos) next ->
  memos <> [] ->
  Qle_bool limit (inject_Z (len (pushNeededQ limit acc memos))) = false ->
  truthy next = true ->
  fetchLoopQ requestUrl apiUrl accessToken limit (S fuel) pageSize acc tok tr
  = fetchLoopQ requestUrl apiUrl accessToken limit fuel pageSize
      (pushNeededQ limit acc memos) next
      (tr ++ [(pageRequestQ apiUrl accessToken pageSize tok, Resolved resp)])%list.
Proof.
  intros Ho Hs Hj Hne Hq Ht.
  cbn [fetchLoopQ]. unfold bind, await_requestUrl.
  rewrite Ho, Hs, Hj, Hq, Ht.
  destruct memos as [| m memos]; [contradiction | reflexivity].
Qed.

End Step.

Local Abbreviation api := "https://memos.example/api/v1".
Local Abbreviation stuckLoop :=
  (fetchLoopQ (endless m1) api "token" (5 # 2)).

Lemma stuck_push acc :
  length acc = 2%nat -> pushNeededQ (5 # 2) acc [m1] = acc.
Proof.
  intros H. unfold pushNeededQ, len. rewrite H.
  replace (slice 0 _ [m1]) with (@nil MemoItem) by (vm_compute; reflexivity).
  apply app_nil_r.
Qed.

(** With two memos under a limit of 2.5 the loop takes nothing more from
    a page and never reaches the limit. *)
Lemma stuck_forever fuel : forall pageSize acc tok tr,
  length acc = 2%nat -> fst (stuckLoop fuel pageSize acc tok tr) = Diverge.
Proof.
  induction fuel as [| fuel IH]; intros pageSize acc tok tr H; [reflexivity |].
  rewrite (fetchLoopQ_continue _ _ _ _ fuel pageSize acc tok tr
             (page [m1] (Some "more")) [m1] (Some "more"));
    try reflexivity; try discriminate.
  - rewrite stuck_push by exact H. now apply IH.
  - rewrite stuck_push by exact H. unfold len. now rewrite H.
Qed.

Lemma stuck_from_start fuel pageSize :
  fst (stuckLoop fuel pageSize [] None []) = Diverge.
Proof.
  destruct fuel as [| [| fuel]]; [reflexivity | |].
  - rewrite (fetchLoopQ_continue _ _ _ _ 0 pageSize [] None []
               (page [m1] (Some "more")) [m1] (Some "more"));
      reflexivity || discriminate.
  - rewrite (fetchLoopQ_continue _ _ _ _ (S fuel) pageSize [] None []
               (page [m1] (Some "more")) [m1] (Some "more"));
      try reflexivity; try discriminate.
    rewrite (fetchLoopQ_continue _ _ _ _ fuel pageSize _ _ _
               (page [m1] (Some "more")) [m1] (Some "more"));
      try reflexivity; try discriminate.
    now apply stuck_forever.
Qed.

(** C10, as it is stated, fails: the limit is a number, and under the
    limit 2.5, which is at least 1, a server that answers every request
    with a page of one memo and a cursor keeps the call going for ever:
    whatever the fuel, the call uses it up; after ten iterations it has
    sent ten requests. *)
Lemma fetchAllMemos_loops_at_fractional_limit :
  Qle_bool (inject_Z 1) (5 # 2) = true /\
  (forall i req, wellFormed (endless m1 i req)) /\
  (~ exists fuel,
       fst (fetchAllMemosQ isoTime (endless m1) api "token" (5 # 2) fuel [])
       <> Diverge) /\
  length (snd (fetchAllMemosQ isoTime (endless m1) api "token" (5 # 2) 10 []))
  = 10%nat.
Proof.
  split; [reflexivity |]. split.
  { intros i req. exists (page [m1] (Some "more")), [m1], (Some "more"). auto. }
  split; [| vm_compute; reflexivity].
  intros [fuel H]. apply H. clear H.
  unfold fetchAllMemosQ, try_catch, bind.
  replace (negb (includes "/api/v1" api)) with false by reflexivity.
  pose proof (stuck_from_start fuel (Math_minQ (inject_Z 100) (5 # 2))) as Hs.
  destruct (stuckLoop fuel (Math_minQ (inject_Z 100) (5 # 2)) [] None [])
    as [[acc | err |] tr]; cbn [fst] in Hs; try discriminate.
  reflexivity.
Qed.

End AnyLimitFacts.
